(** * Bengali ASR data pipeline: preprocessing, augmentation and speaker split

    A shallow embedding of [src/data/preprocess.py] and [src/data/augment.py].

    Conventions of the embedding.
    - Python exceptions are values of [Py.result]; a function that can raise
      returns [Py.Raise e], and [Py.bind] propagates the first exception.
    - The ratios of the split are embedded twice.  With the literal ratios
      of [main] (0.2 and 0.5, 0.8/0.1/0.1) and of the scenario (1.0, 0, 0)
      they are exact rationals ([Q]).  For arbitrary ratios they are IEEE
      binary64 numbers (module [Double]): sums, quotients, products,
      comparisons and ceilings are then those of the machine.
    - Durations are exact rationals.
    - Audio buffers are arrays of dtype float64.  A sample is an [npfloat]:
      a finite double, given as the real number it stands for, or one of
      the IEEE special values [PInf], [NInf], [NaN], with numpy's rules for
      the special values (a division by zero yields an infinity or [NaN],
      it does not raise).  The two zeros are not told apart.  Every
      arithmetic result is rounded by [rnd], the rounding to nearest of
      double precision, and becomes an infinity when it exceeds the largest
      double; what a statement needs of [rnd] is collected in [rounding].
      The library power function is [pow10], the order in which numpy adds
      up an array is [np_add_reduce].  The scalar arguments (target level,
      noise level, gain, signal-to-noise ratio) are finite.
    - A seeded pseudo random generator is the stream of raw draws it will
      produce, given as a function of the seed and the draw position. *)

From Stdlib Require Import Floats.
From Stdlib Require Import String Ascii ZArith QArith Qround Qabs.
From Stdlib Require Import Bool Arith Lia List Permutation.
From Stdlib Require Import Reals Lra.
Import ListNotations.

Set Implicit Arguments.
#[local] Set Warnings "-inexact-float".

(** ** Python results and exceptions *)

Module Py.

Inductive exn : Type :=
| AssertionError
| ValueError
| ZeroDivisionError
| IndexError
| OverflowError.

Inductive result (A : Type) : Type :=
| Ok (a : A)
| Raise (e : exn).

Arguments Ok {A} a.
Arguments Raise {A} e.

Definition bind {A B : Type} (m : result A) (k : A -> result B) : result B :=
  match m with
  | Ok a => k a
  | Raise e => Raise e
  end.

Definition is_ok {A : Type} (m : result A) : bool :=
  match m with
  | Ok _ => true
  | Raise _ => false
  end.

(** [[f(x) for x in l]] where [f] may raise. *)
Fixpoint mapM {A B : Type} (f : A -> result B) (l : list A) : result (list B) :=
  match l with
  | [] => Ok []
  | x :: xs =>
      bind (f x) (fun y => bind (mapM f xs) (fun ys => Ok (y :: ys)))
  end.

End Py.

Import Py.

Declare Scope py_scope.
Delimit Scope py_scope with py.
Notation "x <- m ;; k" := (Py.bind m (fun x => k))
  (at level 61, m at next level, right associativity) : py_scope.
Notation "' p <- m ;; k" := (Py.bind m (fun p => k))
  (at level 61, p pattern, m at next level, right associativity) : py_scope.
Open Scope py_scope.

(** ** Rational helpers *)

Definition Qltb (x y : Q) : bool := negb (Qle_bool y x).

(** ** preprocess.py: DatasetSplitter *)

Record DatasetSplitter : Type := mkSplitter {
  train_ratio : Q;
  valid_ratio : Q;
  test_ratio : Q;
  random_seed : Z
}.

(** [DatasetSplitter.__init__]: the assertion on the ratios, then the four
    attribute assignments. *)
Definition DatasetSplitter_init (train valid test : Q) (seed : Z)
  : result DatasetSplitter :=
  if Qltb (Qabs (train + valid + test - 1)) (1 # 1000000)
  then Ok (mkSplitter train valid test seed)
  else Raise AssertionError.

(** A manifest row.  [speaker] is read with [sample.get("speaker",
    "unknown")], so the key may be absent; the other keys are indexed. *)
Record Sample : Type := mkSample {
  path : string;
  transcript : string;
  speaker : option string;
  locale : string
}.

Definition get_speaker (sample : Sample) : string :=
  match speaker sample with
  | Some s => s
  | None => "unknown"%string
  end.

(** [speaker_to_samples[speaker].append(sample)] on an insertion-ordered
    [defaultdict(list)]: a new key goes last. *)
Fixpoint dict_append (d : list (string * list Sample)) (k : string) (s : Sample)
  : list (string * list Sample) :=
  match d with
  | [] => [(k, [s])]
  | (k', l) :: d' =>
      if String.eqb k' k then (k', l ++ [s]) :: d'
      else (k', l) :: dict_append d' k s
  end.

(** [speaker_to_samples[speaker]]; a missing key reads as the empty list. *)
Fixpoint dict_get (d : list (string * list Sample)) (k : string) : list Sample :=
  match d with
  | [] => []
  | (k', l) :: d' => if String.eqb k' k then l else dict_get d' k
  end.

Definition dict_keys (d : list (string * list Sample)) : list string :=
  map fst d.

Definition group_by_speaker (data : list Sample) : list (string * list Sample) :=
  fold_left (fun d sample => dict_append d (get_speaker sample) sample) data [].

(** *** sklearn.model_selection.train_test_split

    The library is not part of the repository; the model follows
    [_validate_shuffle_split] and [ShuffleSplit._iter_indices] for a float
    [test_size], [train_size=None] and an integer [random_state].  The
    second validation, of the integer sizes inside [ShuffleSplit], accepts
    whatever the first one returned and is left out. *)

Fixpoint update {A : Type} (l : list A) (i : nat) (v : A) : list A :=
  match l, i with
  | [], _ => []
  | _ :: l', O => v :: l'
  | a :: l', S i' => a :: update l' i' v
  end.

(** [x[i], x[j] = x[j], x[i]] *)
Definition swap {A : Type} (x : list A) (i j : nat) : list A :=
  match nth_error x i, nth_error x j with
  | Some a, Some b => update (update x i b) j a
  | _, _ => x
  end.

Definition validate_shuffle_split (n_samples : nat) (test_size : Q)
  : result (Z * Z) :=
  if Qle_bool test_size 0 || Qle_bool 1 test_size then Raise ValueError
  else
    let n_test := Qceiling (test_size * inject_Z (Z.of_nat n_samples)) in
    let n_train := (Z.of_nat n_samples - n_test)%Z in
    if (n_train + n_test >? Z.of_nat n_samples)%Z then Raise ValueError
    else if (n_train =? 0)%Z then Raise ValueError
    else Ok (n_train, n_test).

(** [[X[idx] for idx in indices]] *)
Definition safe_indexing {A : Type} (X : list A) (indices : list nat)
  : result (list A) :=
  mapM (fun idx => match nth_error X idx with
                   | Some a => Ok a
                   | None => Raise IndexError
                   end) indices.

(** Python's [a / b] on floats. *)
Definition pydiv (a b : Q) : result Q :=
  if Qeq_bool b 0 then Raise ZeroDivisionError else Ok (a / b)%Q.

Section Split.

(** [mt_draw seed k]: the [k]-th raw draw of [RandomState(seed)]. *)
Variable mt_draw : Z -> nat -> nat.

(** A draw in [[0, max]]. *)
Definition random_interval (seed : Z) (pos max : nat) : nat :=
  mt_draw seed pos mod (S max).

(** [for i in reversed(range(1, n)): j = random_interval(i); swap] *)
Fixpoint shuffle (seed : Z) (pos i : nat) (x : list nat) : list nat :=
  match i with
  | O => x
  | S i' => shuffle seed (S pos) i' (swap x i (random_interval seed pos i))
  end.

(** [RandomState(seed).permutation(n)] *)
Definition permutation (seed : Z) (n : nat) : list nat :=
  shuffle seed 0 (n - 1) (seq 0 n).

Definition train_test_split {A : Type} (arr : list A) (test_size : Q)
    (random_state : Z) : result (list A * list A) :=
  ' (n_train, n_test) <- validate_shuffle_split (length arr) test_size ;;
  let p := permutation random_state (length arr) in
  let ind_test := firstn (Z.to_nat n_test) p in
  let ind_train := firstn (Z.to_nat n_train) (skipn (Z.to_nat n_test) p) in
  train <- safe_indexing arr ind_train ;;
  test <- safe_indexing arr ind_test ;;
  Ok (train, test).

(** [DatasetSplitter.split_by_speaker] *)
Definition split_by_speaker (self : DatasetSplitter) (data : list Sample)
  : result (list Sample * list Sample * list Sample) :=
  let speaker_to_samples := group_by_speaker data in
  let speakers := dict_keys speaker_to_samples in
  ' (train_speakers, temp_speakers) <-
      train_test_split speakers
        (valid_ratio self + test_ratio self)%Q (random_seed self) ;;
  test_size <- pydiv (test_ratio self) (valid_ratio self + test_ratio self) ;;
  ' (valid_speakers, test_speakers) <-
      train_test_split temp_speakers test_size (random_seed self) ;;
  let train_data := flat_map (dict_get speaker_to_samples) train_speakers in
  let valid_data := flat_map (dict_get speaker_to_samples) valid_speakers in
  let test_data := flat_map (dict_get speaker_to_samples) test_speakers in
  Ok (train_data, valid_data, test_data).

(** The speaker-split path of [main]: construct the splitter, then split. *)
Definition run_speaker_split (train valid test : Q) (seed : Z)
    (data : list Sample)
  : result (list Sample * list Sample * list Sample) :=
  splitter <- DatasetSplitter_init train valid test seed ;;
  split_by_speaker splitter data.

End Split.

(** ** preprocess.py: DatasetSplitter on double-precision ratios

    The constructor and [split_by_speaker] once more, for arbitrary
    ratios: a ratio is a binary64 number, [+], [-], [*], [/], [abs] and
    the comparisons are the operations of the machine ([nan] compares
    false), and [math.ceil] reads the exact value of its argument. *)

Module Double.

Record DatasetSplitter : Type := mkSplitter {
  train_ratio : float;
  valid_ratio : float;
  test_ratio : float;
  random_seed : Z
}.

(** [assert abs(train_ratio + valid_ratio + test_ratio - 1.0) < 1e-6] *)
Definition DatasetSplitter_init (train valid test : float) (seed : Z)
  : result DatasetSplitter :=
  if PrimFloat.ltb (PrimFloat.abs (train + valid + test - 1)%float) 1e-6%float
  then Ok (mkSplitter train valid test seed)
  else Raise AssertionError.

(** The conversion of a Python [int] in [test_size * n_samples]: the
    nearest double. *)
Definition float_of_int (n : Z) : float :=
  SF2Prim (binary_normalize prec emax n 0 false).

(** [math.ceil(x)]: the least integer not below the exact value of [x]; it
    raises on [nan] and on an infinity. *)
Definition math_ceil (x : float) : result Z :=
  match Prim2SF x with
  | S754_zero _ => Ok 0%Z
  | S754_infinity _ => Raise OverflowError
  | S754_nan => Raise ValueError
  | S754_finite s m e =>
      let z := if s then Z.neg m else Z.pos m in
      Ok (if (0 <=? e)%Z then z * 2 ^ e else - ((- z) / 2 ^ (- e)))%Z
  end.

(** [_validate_shuffle_split] for a float [test_size] and
    [train_size=None]. *)
Definition validate_shuffle_split (n_samples : nat) (test_size : float)
  : result (Z * Z) :=
  if PrimFloat.leb test_size 0 || PrimFloat.leb 1 test_size
  then Raise ValueError
  else
    n_test <- math_ceil (test_size * float_of_int (Z.of_nat n_samples))%float ;;
    let n_train := (Z.of_nat n_samples - n_test)%Z in
    if (n_train + n_test >? Z.of_nat n_samples)%Z then Raise ValueError
    else if (n_train =? 0)%Z then Raise ValueError
    else Ok (n_train, n_test).

(** [_validate_shuffle_split] as [ShuffleSplit] calls it again, with the two
    integer sizes. *)
Definition validate_sizes (n_samples : nat) (n_train n_test : Z)
  : result (Z * Z) :=
  if (Z.of_nat n_samples <=? n_test)%Z || (n_test <=? 0)%Z
  then Raise ValueError
  else if (Z.of_nat n_samples <=? n_train)%Z || (n_train <=? 0)%Z
  then Raise ValueError
  else if (n_train + n_test >? Z.of_nat n_samples)%Z then Raise ValueError
  else if (n_train =? 0)%Z then Raise ValueError
  else Ok (n_train, n_test).

(** Python's [a / b] on floats. *)
Definition pydiv (a b : float) : result float :=
  if PrimFloat.eqb b 0 then Raise ZeroDivisionError else Ok (a / b)%float.

Section Split.

Variable mt_draw : Z -> nat -> nat.

Definition train_test_split {A : Type} (arr : list A) (test_size : float)
    (random_state : Z) : result (list A * list A) :=
  ' (n_train, n_test) <- validate_shuffle_split (length arr) test_size ;;
  ' (n_train, n_test) <- validate_sizes (length arr) n_train n_test ;;
  let p := permutation mt_draw random_state (length arr) in
  let ind_test := firstn (Z.to_nat n_test) p in
  let ind_train := firstn (Z.to_nat n_train) (skipn (Z.to_nat n_test) p) in
  train <- safe_indexing arr ind_train ;;
  test <- safe_indexing arr ind_test ;;
  Ok (train, test).

(** [DatasetSplitter.split_by_speaker] *)
Definition split_by_speaker (self : DatasetSplitter) (data : list Sample)
  : result (list Sample * list Sample * list Sample) :=
  let speaker_to_samples := group_by_speaker data in
  let speakers := dict_keys speaker_to_samples in
  ' (train_speakers, temp_speakers) <-
      train_test_split speakers
        (valid_ratio self + test_ratio self)%float (random_seed self) ;;
  test_size <- pydiv (test_ratio self)
                     (valid_ratio self + test_ratio self)%float ;;
  ' (valid_speakers, test_speakers) <-
      train_test_split temp_speakers test_size (random_seed self) ;;
  let train_data := flat_map (dict_get speaker_to_samples) train_speakers in
  let valid_data := flat_map (dict_get speaker_to_samples) valid_speakers in
  let test_data := flat_map (dict_get speaker_to_samples) test_speakers in
  Ok (train_data, valid_data, test_data).

(** The speaker-split path of [main]: construct the splitter, then split. *)
Definition run_speaker_split (train valid test : float) (seed : Z)
    (data : list Sample)
  : result (list Sample * list Sample * list Sample) :=
  splitter <- DatasetSplitter_init train valid test seed ;;
  split_by_speaker splitter data.

(** The record-level split of [main]:
    [train_test_split(all_samples, test_size=0.2, random_state=42)], then
    [train_test_split(temp_data, test_size=0.5, random_state=42)]. *)
Definition random_split (all_samples : list Sample)
  : result (list Sample * list Sample * list Sample) :=
  ' (train_data, temp_data) <- train_test_split all_samples 0.2 42 ;;
  ' (valid_data, test_data) <- train_test_split temp_data 0.5 42 ;;
  Ok (train_data, valid_data, test_data).

(** The [if args.speaker_split] of [main]; the splitter is built with
    ratios 0.8, 0.1, 0.1 and the default seed 42. *)
Definition main_split (use_speaker_split : bool) (all_samples : list Sample)
  : result (list Sample * list Sample * list Sample) :=
  if use_speaker_split
  then run_speaker_split 0.8 0.1 0.1 42 all_samples
  else random_split all_samples.

End Split.

(** The number of test elements one call of [train_test_split] takes from
    [n] elements at the fraction [test_size], when the call goes through:
    the fraction is neither [<= 0] nor [>= 1], and the ceiling of its
    product with [n] is positive and less than [n]. *)
Definition test_count (n : nat) (test_size : float) : option Z :=
  if PrimFloat.leb test_size 0 || PrimFloat.leb 1 test_size then None
  else
    match math_ceil (test_size * float_of_int (Z.of_nat n))%float with
    | Ok n_test =>
        if (0 <? n_test)%Z && (n_test <? Z.of_nat n)%Z then Some n_test
        else None
    | Raise _ => None
    end.

(** The ratios and the number [n] of speakers let both calls of
    [train_test_split] through. *)
Definition split_feasible (self : DatasetSplitter) (n : nat) : bool :=
  let ts := (valid_ratio self + test_ratio self)%float in
  match test_count n ts with
  | Some n_temp =>
      match pydiv (test_ratio self) ts with
      | Ok ts2 =>
          match test_count (Z.to_nat n_temp) ts2 with
          | Some _ => true
          | None => false
          end
      | Raise _ => false
      end
  | None => false
  end.

(** The rational number a finite double stands for. *)
Definition exact_value (x : float) : option Q :=
  match Prim2SF x with
  | S754_zero _ => Some 0%Q
  | S754_finite s m e =>
      let z := if s then Z.neg m else Z.pos m in
      Some (if (0 <=? e)%Z then inject_Z (z * 2 ^ e)
            else z # Pos.pow 2 (Z.to_pos (- e)))
  | S754_infinity _ | S754_nan => None
  end.

(** The distance from one of the sum of three finite doubles, taken
    exactly. *)
Definition exact_sum_error (train valid test : float) : option Q :=
  match exact_value train, exact_value valid, exact_value test with
  | Some a, Some b, Some c => Some (Qabs (a + b + c - 1))
  | _, _, _ => None
  end.

End Double.

(** *** Statistics of [main] *)

Record Stats : Type := mkStats {
  total_samples : nat;
  train_samples : nat;
  valid_samples : nat;
  test_samples : nat;
  estimated_hours : Q;
  target_sr : Z;
  speaker_split : bool
}.

Definition Qsum (l : list Q) : Q := fold_right Qplus 0%Q l.

Definition Qlen {A : Type} (l : list A) : Q := inject_Z (Z.of_nat (length l)).

Section Statistics.

(** [librosa.get_duration(path=...)]: the length in seconds of the file at
    a path. *)
Variable get_duration : string -> Q.

(** [sum([... for sample in train_data[:100]]) * (len(train_data) / 100)] *)
Definition total_duration (train_data : list Sample) : Q :=
  (Qsum (map (fun sample => get_duration (path sample)) (firstn 100 train_data))
   * (Qlen train_data / 100))%Q.

Definition main_stats (sample_rate : Z) (use_speaker_split : bool)
    (all_samples train_data valid_data test_data : list Sample) : Stats :=
  mkStats (length all_samples) (length train_data) (length valid_data)
          (length test_data) (total_duration train_data / 3600)%Q
          sample_rate use_speaker_split.

End Statistics.

(** ** numpy floating point values *)

Inductive npfloat : Type :=
| Num (r : R)
| PInf
| NInf
| NaN.

Definition Rsign (r : R) : comparison :=
  match total_order_T 0 r with
  | inleft (left _) => Gt
  | inleft (right _) => Eq
  | inright _ => Lt
  end.

Definition np_sign (x : npfloat) : comparison :=
  match x with
  | Num r => Rsign r
  | PInf => Gt
  | NInf => Lt
  | NaN => Eq
  end.

Definition sign_mul (a b : comparison) : comparison :=
  match a, b with
  | Eq, _ | _, Eq => Eq
  | Gt, Gt | Lt, Lt => Gt
  | Gt, Lt | Lt, Gt => Lt
  end.

(** The infinity of a sign; no sign (zero times infinity, zero over zero)
    gives [NaN]. *)
Definition inf_of (c : comparison) : npfloat :=
  match c with
  | Gt => PInf
  | Lt => NInf
  | Eq => NaN
  end.

(** *** Double precision

    The largest double, [(2 - 2^-52) * 2^1023]; the unit roundoff [2^-53];
    and half the smallest positive double, [2^-1075]. *)

Definition max_float : R := IZR (2 ^ 1024 - 2 ^ 971).

Definition unit_roundoff : R := / IZR (2 ^ 53).

Definition half_min_float : R := / IZR (2 ^ 1075).

(** What the statements use of the rounding to nearest [rnd], which sends a
    real number to the double nearest to it (the exponent being unbounded
    upwards; overflow is decided afterwards): zero and one are doubles, the
    rounding is monotone, symmetric and leaves a double alone, and its error
    is at most the unit roundoff relative to the argument, or half the
    smallest positive double. *)
Record rounding (rnd : R -> R) : Prop := mkRounding {
  rnd_0 : rnd 0%R = 0%R;
  rnd_1 : rnd 1%R = 1%R;
  rnd_monotone : forall x y : R, (x <= y)%R -> (rnd x <= rnd y)%R;
  rnd_opp : forall x : R, rnd (- x)%R = (- rnd x)%R;
  rnd_idempotent : forall x : R, rnd (rnd x) = rnd x;
  rnd_error : forall x : R,
    (Rabs (rnd x - x) <= unit_roundoff * Rabs x + half_min_float)%R
}.

Section Numpy.

Variable rnd : R -> R.

(** [pow10 y]: what the C library returns for [pow(10.0, y)], before the
    range check of Python's [**]. *)
Variable pow10 : R -> R.

(** [np_add_reduce a]: [np.add.reduce] on an array that is not empty; numpy
    adds the elements pairwise, in an order of its own. *)
Variable np_add_reduce : list npfloat -> npfloat.

(** The double for an exact result [x]: the rounded value, or the infinity
    of its sign when that is beyond the largest double. *)
Definition fl (x : R) : npfloat :=
  if Rle_dec (Rabs (rnd x)) max_float then Num (rnd x)
  else if Rlt_dec 0 x then PInf else NInf.

Definition np_add (x y : npfloat) : npfloat :=
  match x, y with
  | NaN, _ | _, NaN => NaN
  | Num a, Num b => fl (a + b)
  | PInf, NInf | NInf, PInf => NaN
  | PInf, _ | _, PInf => PInf
  | NInf, _ | _, NInf => NInf
  end.

Definition np_mul (x y : npfloat) : npfloat :=
  match x, y with
  | NaN, _ | _, NaN => NaN
  | Num a, Num b => fl (a * b)
  | _, _ => inf_of (sign_mul (np_sign x) (np_sign y))
  end.

(** numpy division: a zero divisor gives an infinity or [NaN] and no
    exception.  Zero is taken as positive zero. *)
Definition np_div (x y : npfloat) : npfloat :=
  match x, y with
  | NaN, _ | _, NaN => NaN
  | Num a, Num b =>
      if Req_dec_T b 0 then inf_of (Rsign a) else fl (a / b)
  | Num _, _ => Num 0
  | _, Num b =>
      inf_of (sign_mul (np_sign x) (if Req_dec_T b 0 then Gt else Rsign b))
  | _, _ => NaN
  end.

Definition np_abs (x : npfloat) : npfloat :=
  match x with
  | Num a => Num (Rabs a)
  | PInf | NInf => PInf
  | NaN => NaN
  end.

Definition np_sqrt (x : npfloat) : npfloat :=
  match x with
  | Num a => if Rlt_dec a 0 then NaN else fl (sqrt a)
  | PInf => PInf
  | NInf | NaN => NaN
  end.

(** [np.maximum]: a [NaN] operand wins. *)
Definition np_maximum (x y : npfloat) : npfloat :=
  match x, y with
  | NaN, _ | _, NaN => NaN
  | PInf, _ | _, PInf => PInf
  | NInf, z | z, NInf => z
  | Num a, Num b => Num (Rmax a b)
  end.

(** [x > y]; false when an operand is [NaN]. *)
Definition np_gt (x y : npfloat) : bool :=
  match x, y with
  | NaN, _ | _, NaN => false
  | Num a, Num b => if Rlt_dec b a then true else false
  | PInf, PInf => false
  | PInf, _ => true
  | _, PInf => false
  | _, NInf => match x with NInf => false | _ => true end
  | NInf, _ => false
  end.

(** [np.max(a)]: raises on a zero-size array. *)
Definition np_max (a : list npfloat) : result npfloat :=
  match a with
  | [] => Raise ValueError
  | x :: xs => Ok (fold_left np_maximum xs x)
  end.

(** [np.sum(a)]: zero for a zero-size array. *)
Definition np_sum (a : list npfloat) : npfloat :=
  match a with
  | [] => Num 0
  | _ => np_add_reduce a
  end.

(** [np.mean(a)]: the sum over the number of elements; the mean of a
    zero-size array is [NaN]. *)
Definition np_mean (a : list npfloat) : npfloat :=
  np_div (np_sum a) (Num (rnd (INR (List.length a)))).

(** [a ** 2] *)
Definition np_square (a : list npfloat) : list npfloat :=
  map (fun x => np_mul x x) a.

(** Elementwise [a + b] of two arrays of one length. *)
Fixpoint arr_add (a b : list npfloat) : list npfloat :=
  match a, b with
  | x :: a', y :: b' => np_add x y :: arr_add a' b'
  | _, _ => []
  end.

(** The literal [0.95]. *)
Definition double_095 : R := rnd (95 / 100).

(** [a / np.max(np.abs(a)) * 0.95], the unguarded peak normalisation of
    augment.py. *)
Definition peak_rescale (a : list npfloat) : result (list npfloat) :=
  peak <- np_max (map np_abs a) ;;
  Ok (map (fun x => np_mul (np_div x peak) (Num double_095)) a).

(** ** preprocess.py: AudioPreprocessor.normalize_audio *)

Definition normalize_audio (audio : list npfloat) (target_level : R)
  : result (list npfloat) :=
  peak <- np_max (map np_abs audio) ;;
  if np_gt peak (Num 0)
  then Ok (map (fun x => np_mul x (np_div (Num target_level) peak)) audio)
  else Ok audio.

Definition default_target_level : R := double_095.

(** ** augment.py: signal transforms *)

(** [np.tile(noise_audio, repeats)] *)
Definition np_tile {A : Type} (a : list A) (repeats : nat) : list A :=
  concat (repeat a repeats).

(** [int(np.ceil(len(audio) / len(noise_audio)))]; the division is Python's
    and raises on a zero length. *)
Definition ceil_len_ratio (la ln : nat) : result nat :=
  if Nat.eqb ln 0 then Raise ZeroDivisionError
  else Ok ((la + ln - 1) / ln)%nat.

(** The noise after [np.tile] and [noise_audio[:len(audio)]]. *)
Definition fit_noise (audio noise_audio : list npfloat)
  : result (list npfloat) :=
  tiled <- (if Nat.ltb (List.length noise_audio) (List.length audio)
            then repeats <- ceil_len_ratio (List.length audio)
                                           (List.length noise_audio) ;;
                 Ok (np_tile noise_audio repeats)
            else Ok noise_audio) ;;
  Ok (firstn (List.length audio) tiled).

(** [10 ** y] for a Python float [y]: the library result, or
    [OverflowError] when that is beyond the largest double. *)
Definition py_pow10 (y : R) : result R :=
  if Rle_dec (Rabs (pow10 y)) max_float then Ok (pow10 y)
  else Raise OverflowError.

(** [10 ** (snr_db / 10.0)] *)
Definition snr_linear (snr_db : R) : result R :=
  py_pow10 (rnd (snr_db / 10)).

(** [np.sqrt(signal_power / (noise_power * snr_linear))], the powers being
    the mean squares of the signal and of the fitted noise. *)
Definition noise_scale (audio noise_audio : list npfloat) (snr_db : R)
  : result npfloat :=
  let signal_power := np_mean (np_square audio) in
  let noise_power := np_mean (np_square noise_audio) in
  snr_linear <- snr_linear snr_db ;;
  Ok (np_sqrt (np_div signal_power (np_mul noise_power (Num snr_linear)))).

(** [AudioAugmenter.add_background_noise] *)
Definition add_background_noise (audio noise_audio : list npfloat) (snr_db : R)
  : result (list npfloat) :=
  noise_audio <- fit_noise audio noise_audio ;;
  noise_scale <- noise_scale audio noise_audio snr_db ;;
  let augmented := arr_add audio (map (np_mul noise_scale) noise_audio) in
  peak_rescale augmented.

(** [AudioAugmenter.volume_perturbation] *)
Definition volume_perturbation (audio : list npfloat) (gain_db : R)
  : result (list npfloat) :=
  gain_linear <- py_pow10 (rnd (gain_db / 20)) ;;
  let augmented := map (fun x => np_mul x (Num gain_linear)) audio in
  peak <- np_max (map np_abs augmented) ;;
  if np_gt peak (Num 1) then peak_rescale augmented else Ok augmented.

End Numpy.

(** The order of a summation and its value: the terms of an array, each
    once, added two sums at a time. *)
Inductive summation : Type :=
| Term (x : npfloat)
| Plus (s t : summation).

Fixpoint terms (s : summation) : list npfloat :=
  match s with
  | Term x => [x]
  | Plus s t => terms s ++ terms t
  end.

Fixpoint value (rnd : R -> R) (s : summation) : npfloat :=
  match s with
  | Term x => x
  | Plus s t => np_add rnd (value rnd s) (value rnd t)
  end.

(** What the statements use of [np_add_reduce]: the result is the value of
    some summation of the elements. *)
Definition pairwise_sum (rnd : R -> R)
    (np_add_reduce : list npfloat -> npfloat) : Prop :=
  forall a, a <> [] ->
    exists s, Permutation (terms s) a /\ np_add_reduce a = value rnd s.

(** ** The process state of augment.py

    The two process-wide generators (Python's [random] module and numpy's
    [np.random]) and the audio files written so far. *)

Record RngState : Type := mkRng {
  rng_seed : Z;
  rng_pos : nat
}.

Record World : Type := mkWorld {
  py_random : RngState;
  np_random : RngState;
  files : list (string * list npfloat)
}.

(** A computation that reads and writes the process state and may raise;
    what was written before an exception stays written. *)
Definition M (A : Type) : Type := World -> result A * World.

Definition ret {A : Type} (a : A) : M A := fun w => (Ok a, w).

Definition bindM {A B : Type} (m : M A) (k : A -> M B) : M B :=
  fun w =>
    match m w with
    | (Ok a, w') => k a w'
    | (Raise e, w') => (Raise e, w')
    end.

Definition lift {A : Type} (r : result A) : M A := fun w => (r, w).

Declare Scope world_scope.
Delimit Scope world_scope with world.
Notation "x <~ m ;; k" := (bindM m (fun x => k))
  (at level 61, m at next level, right associativity) : world_scope.
Open Scope world_scope.

(** A loop [for x in l: acc = body(acc, x)]. *)
Fixpoint foldM {A B : Type} (body : B -> A -> M B) (l : list A) (acc : B)
  : M B :=
  match l with
  | [] => ret acc
  | x :: xs => acc' <~ body acc x ;; foldM body xs acc'
  end.

(** [sf.write(path, audio, sr)] *)
Definition sf_write (out_path : string) (audio : list npfloat) : M unit :=
  fun w => (Ok tt,
            mkWorld (py_random w) (np_random w)
                    (files w ++ [(out_path, audio)])).

(** [np.random.seed(seed)] *)
Definition np_random_seed (seed : Z) : M unit :=
  fun w => (Ok tt, mkWorld (py_random w) (mkRng seed 0) (files w)).

Record AudioAugmenter : Type := mkAugmenter {
  sr : Z;
  rng : RngState
}.

(** [AudioAugmenter.__init__]: [self.rng = random.Random(seed)] is a
    generator of its own; [np.random.seed] reseeds numpy's global one. *)
Definition AudioAugmenter_init (sample_rate seed : Z) : M AudioAugmenter :=
  _ <~ np_random_seed seed ;;
  ret (mkAugmenter sample_rate (mkRng seed 0)).

(** A numeric literal of the source with its [str()], as the f-strings
    print it. *)
Record Literal : Type := mkLit {
  lit_val : R;
  lit_str : string
}.

(** ["name" in techniques] *)
Definition requested (name : string) (techniques : list string) : bool :=
  existsb (String.eqb name) techniques.

(** [int(x)] of a float: truncation towards zero. *)
Definition pyint (x : Q) : Z := Z.quot (Qnum x) (Zpos (Qden x)).

Section Augment.

Variable rnd : R -> R.
Variable pow10 : R -> R.

(** [normal_draw seed k]: the [k]-th standard normal draw of numpy's
    generator seeded with [seed]. *)
Variable normal_draw : Z -> nat -> R.

(** [py_draw seed k]: the [k]-th raw draw of Python's generator seeded
    with [seed]. *)
Variable py_draw : Z -> nat -> nat.

(** [librosa.effects.time_stretch], a library routine. *)
Variable time_stretch : list npfloat -> R -> result (list npfloat).

(** [librosa.load(audio_path, sr=self.sr, mono=True)] and
    [Path(audio_path).stem]. *)
Variable load : string -> Z -> result (list npfloat).
Variable stem : string -> string.

(** [path_div dir name]: [str(dir / name)], the join of pathlib. *)
Variable path_div : string -> string -> string.

(** The literals of the three loops of [augment_audio]; a decimal literal
    is the double nearest to it. *)
Definition speed_factors : list Literal :=
  [mkLit (rnd (9 / 10)) "0.9"; mkLit (rnd (11 / 10)) "1.1"].

Definition noise_levels : list Literal :=
  [mkLit (rnd (3 / 1000)) "0.003"; mkLit (rnd (7 / 1000)) "0.007"].

Definition gains : list Literal :=
  [mkLit (-3) "-3"; mkLit 3 "3"].

(** [np.random.normal(loc, scale, shape)] on the global generator: a
    negative [scale] raises; each sample is [loc + scale * z] for the next
    standard normal draw [z]. *)
Definition np_random_normal (loc scale : R) (size : nat) : M (list npfloat) :=
  fun w =>
    if Rlt_dec scale 0 then (Raise ValueError, w)
    else
      let g := np_random w in
      (Ok (map (fun k =>
                  np_add rnd (Num loc)
                    (np_mul rnd (Num scale)
                       (Num (normal_draw (rng_seed g) (rng_pos g + k)))))
               (seq 0 size)),
       mkWorld (py_random w) (mkRng (rng_seed g) (rng_pos g + size)) (files w)).

(** [AudioAugmenter.speed_perturbation] *)
Definition speed_perturbation (audio : list npfloat) (speed_factor : R)
  : result (list npfloat) :=
  time_stretch audio speed_factor.

(** [AudioAugmenter.add_white_noise] *)
Definition add_white_noise (audio : list npfloat) (noise_level : R)
  : M (list npfloat) :=
  noise <~ np_random_normal 0 noise_level (List.length audio) ;;
  let augmented := arr_add rnd audio noise in
  lift (peak_rescale rnd augmented).

(** The loop [for speed in [0.9, 1.1]] of [augment_audio]. *)
Definition speed_variants (audio : list npfloat) (output_dir base_name : string)
    (augmented_files : list (string * string)) : M (list (string * string)) :=
  foldM (fun acc speed =>
           aug_audio <~ lift (speed_perturbation audio (lit_val speed)) ;;
           let out_path :=
             path_div output_dir
               (base_name ++ "_speed" ++ lit_str speed ++ ".wav") in
           _ <~ sf_write out_path aug_audio ;;
           ret (acc ++ [(out_path, ("speed_" ++ lit_str speed)%string)]))
        speed_factors augmented_files.

(** The loop [for noise_level in [0.003, 0.007]] of [augment_audio]. *)
Definition noise_variants (audio : list npfloat) (output_dir base_name : string)
    (augmented_files : list (string * string)) : M (list (string * string)) :=
  foldM (fun acc noise_level =>
           aug_audio <~ add_white_noise audio (lit_val noise_level) ;;
           let out_path :=
             path_div output_dir
               (base_name ++ "_noise" ++ lit_str noise_level ++ ".wav") in
           _ <~ sf_write out_path aug_audio ;;
           ret (acc ++ [(out_path, ("noise_" ++ lit_str noise_level)%string)]))
        noise_levels augmented_files.

(** The loop [for gain in [-3, 3]] of [augment_audio]. *)
Definition volume_variants (audio : list npfloat) (output_dir base_name : string)
    (augmented_files : list (string * string)) : M (list (string * string)) :=
  foldM (fun acc gain =>
           aug_audio <~ lift (volume_perturbation rnd pow10 audio (lit_val gain)) ;;
           let out_path :=
             path_div output_dir
               (base_name ++ "_vol" ++ lit_str gain ++ "db.wav") in
           _ <~ sf_write out_path aug_audio ;;
           ret (acc ++ [(out_path, ("volume_" ++ lit_str gain ++ "db")%string)]))
        gains augmented_files.

(** [AudioAugmenter.augment_audio]; creating the output directory and
    writing a file are taken to succeed. *)
Definition augment_audio (self : AudioAugmenter) (audio_path output_dir : string)
    (techniques : list string) : M (list (string * string)) :=
  audio <~ lift (load audio_path (sr self)) ;;
  let base_name := stem audio_path in
  let augmented_files := [] in
  let original_out := path_div output_dir (base_name ++ "_original.wav") in
  _ <~ sf_write original_out audio ;;
  let augmented_files := augmented_files ++ [(original_out, "original"%string)] in
  augmented_files <~
    (if requested "speed" techniques
     then speed_variants audio output_dir base_name augmented_files
     else ret augmented_files) ;;
  augmented_files <~
    (if requested "noise" techniques
     then noise_variants audio output_dir base_name augmented_files
     else ret augmented_files) ;;
  augmented_files <~
    (if requested "volume" techniques
     then volume_variants audio output_dir base_name augmented_files
     else ret augmented_files) ;;
  ret augmented_files.

(** [random._randbelow(n)] on the module's global generator; one raw draw
    per call. *)
Definition randbelow (n : nat) : M nat :=
  fun w =>
    let g := py_random w in
    (Ok (py_draw (rng_seed g) (rng_pos g) mod n)%nat,
     mkWorld (mkRng (rng_seed g) (S (rng_pos g))) (np_random w) (files w)).

(** The selection loop of [random.sample]:
    [j = randbelow(n - i); result[i] = pool[j]; pool[j] = pool[n - i - 1]]. *)
Fixpoint sample_loop {A : Type} (k m : nat) (pool : list A) (acc : list A)
  : M (list A) :=
  match k with
  | O => ret acc
  | S k' =>
      j <~ randbelow m ;;
      match nth_error pool j, nth_error pool (m - 1) with
      | Some x, Some y => sample_loop k' (m - 1) (update pool j y) (acc ++ [x])
      | _, _ => lift (Raise IndexError)
      end
  end.

(** [random.sample(population, k)], by the pool algorithm the library uses
    for populations of moderate size. *)
Definition random_sample {A : Type} (population : list A) (k : Z) : M (list A) :=
  let n := List.length population in
  if (k <? 0)%Z || (Z.of_nat n <? k)%Z then lift (Raise ValueError)
  else sample_loop (Z.to_nat k) n population [].

(** The selection step of [augment_dataset], from the construction of the
    augmenter to [samples_to_augment]. *)
Definition select_samples (samples : list Sample) (augment_ratio : Q)
  : M (list Sample) :=
  augmenter <~ AudioAugmenter_init 16000 42 ;;
  let num_to_augment := pyint (Qlen samples * augment_ratio) in
  random_sample samples num_to_augment.

End Augment.

(** ** Vocabulary of the statements *)

Definition speaker_is (k : string) (sample : Sample) : bool :=
  String.eqb (get_speaker sample) k.

(** No speaker id occurs in both lists. *)
Definition speaker_disjoint (l1 l2 : list Sample) : Prop :=
  forall s1 s2, In s1 l1 -> In s2 l2 -> get_speaker s1 <> get_speaker s2.

(** The three properties of a speaker-level split of [data]: pairwise
    speaker-disjoint outputs, every input record in exactly one output
    (the outputs together are a rearrangement of the input), and for each
    speaker the same records in the same order as in the input. *)
Definition split_invariant (data train valid test : list Sample) : Prop :=
  speaker_disjoint train valid
  /\ speaker_disjoint train test
  /\ speaker_disjoint valid test
  /\ Permutation (train ++ valid ++ test) data
  /\ forall k, filter (speaker_is k) (train ++ valid ++ test)
               = filter (speaker_is k) data.

(** The speaker ids of [data], in order of first appearance. *)
Definition distinct_speakers (data : list Sample) : list string :=
  dict_keys (group_by_speaker data).

(** The ratios and the number [n] of speakers let both calls of
    [train_test_split] through: each test fraction is strictly between 0
    and 1 and leaves at least one element on the training side. *)
Definition split_feasible (self : DatasetSplitter) (n : nat) : Prop :=
  let ts := (valid_ratio self + test_ratio self)%Q in
  let n_temp := Qceiling (ts * inject_Z (Z.of_nat n)) in
  (0 < ts)%Q /\ (ts < 1)%Q /\ (n_temp < Z.of_nat n)%Z
  /\ (0 < test_ratio self / ts)%Q /\ (test_ratio self / ts < 1)%Q
  /\ (Qceiling (test_ratio self / ts * inject_Z n_temp) < n_temp)%Z.

(** The summed duration of all files of a split. *)
Definition summed_duration (get_duration : string -> Q) (l : list Sample) : Q :=
  Qsum (map (fun sample => get_duration (path sample)) l).

(** A concrete stream of raw draws, for the worked examples. *)
Definition example_draw (seed : Z) (k : nat) : nat :=
  (Z.to_nat seed * 7 + k * 13 + 5)%nat.

Definition example_sample (p spk : string) : Sample :=
  mkSample p "text" (Some spk) "bn".

(** Two records of speaker A and one of speaker B. *)
Definition scenario_records : list Sample :=
  [example_sample "a1.wav" "A"; example_sample "a2.wav" "A";
   example_sample "b1.wav" "B"].

(** [n] records with files named after their index. *)
Definition numbered_records (n : nat) : list Sample :=
  map (fun i => mkSample (String (ascii_of_nat i) EmptyString) "text" None "bn")
      (seq 0 n).

(** *** Real-valued buffers *)

(** The largest absolute sample; 0 for the empty buffer. *)
Definition peak_of (l : list R) : R :=
  fold_right (fun x m => Rmax (Rabs x) m) 0%R l.

Definition Rsum (l : list R) : R := fold_right Rplus 0%R l.

(** [mean(buffer ** 2)], taken exactly. *)
Definition power (l : list R) : R :=
  (Rsum (map (fun x => x * x) l) / INR (List.length l))%R.

(** Every sample times [s], rounded. *)
Definition scaled (rnd : R -> R) (s : R) (l : list R) : list R :=
  map (fun x => rnd (x * s)%R) l.

(** Sample-wise sum of two buffers, rounded. *)
Fixpoint mix (rnd : R -> R) (a b : list R) : list R :=
  match a, b with
  | x :: a', y :: b' => rnd (x + y)%R :: mix rnd a' b'
  | _, _ => []
  end.

(** Every sample over the peak, rounded, times the double 0.95, rounded. *)
Definition rescaled (rnd : R -> R) (l : list R) : list R :=
  map (fun x => rnd (rnd (x / peak_of l) * double_095 rnd)%R) l.

(** The noise repeated end to end and cut to [len] samples: sample [i] is
    sample [i mod len(noise)] of the noise. *)
Definition tiled (noise : list R) (len : nat) : list R :=
  map (fun i => nth (i mod List.length noise) noise 0%R) (seq 0 len).




(** Arithmetic without rounding error, an exact power function and the
    summation from left to right, for the worked examples. *)
Definition exact (x : R) : R := x.

Definition exact_pow10 (y : R) : R := Rpower 10 y.

Definition sequential_sum (rnd : R -> R) (a : list npfloat) : npfloat :=
  match a with
  | [] => Num 0
  | x :: xs => fold_left (np_add rnd) xs x
  end.

(** The white-noise variant of a buffer at a noise level, from a state of
    numpy's generator: the buffer plus [len(buffer)] normal samples of that
    deviation, rescaled. *)
Definition white_noise_mixture (rnd : R -> R) (normal_draw : Z -> nat -> R)
    (audio : list npfloat) (noise_level : R) (g : RngState)
  : result (list npfloat) :=
  peak_rescale rnd
    (arr_add rnd audio
       (map (fun k =>
               np_add rnd (Num 0)
                 (np_mul rnd (Num noise_level)
                    (Num (normal_draw (rng_seed g) (rng_pos g + k)%nat))))
            (seq 0 (List.length audio)))).

(** The catalogue of section 4.3 as a list of (output path, tag), for the
    techniques requested. *)
Definition catalogue_variants (path_div : string -> string -> string)
    (output_dir base_name : string)
    (techniques : list string) : list (string * string) :=
  let out := fun suffix => path_div output_dir (base_name ++ suffix)%string in
  [(out "_original.wav"%string, "original"%string)]
  ++ (if requested "speed" techniques
      then [(out "_speed0.9.wav"%string, "speed_0.9"%string);
            (out "_speed1.1.wav"%string, "speed_1.1"%string)]
      else [])
  ++ (if requested "noise" techniques
      then [(out "_noise0.003.wav"%string, "noise_0.003"%string);
            (out "_noise0.007.wav"%string, "noise_0.007"%string)]
      else [])
  ++ (if requested "volume" techniques
      then [(out "_vol-3db.wav"%string, "volume_-3db"%string);
            (out "_vol3db.wav"%string, "volume_3db"%string)]
      else []).

(** The catalogue with what each file is to hold: the buffer itself, its
    time stretch at rates 0.9 and 1.1, its white-noise variants at
    deviations 0.003 and 0.007 (the second drawn after the first), and its
    volume variants at -3 and +3 dB. *)
Definition catalogue_contents (rnd pow10 : R -> R)
    (normal_draw : Z -> nat -> R)
    (time_stretch : list npfloat -> R -> result (list npfloat))
    (audio : list npfloat) (g : RngState) (techniques : list string)
  : list (result (list npfloat)) :=
  [Ok audio]
  ++ (if requested "speed" techniques
      then [time_stretch audio (rnd (9 / 10)%R);
            time_stretch audio (rnd (11 / 10)%R)]
      else [])
  ++ (if requested "noise" techniques
      then [white_noise_mixture rnd normal_draw audio (rnd (3 / 1000)%R) g;
            white_noise_mixture rnd normal_draw audio (rnd (7 / 1000)%R)
              (mkRng (rng_seed g) (rng_pos g + List.length audio)%nat)]
      else [])
  ++ (if requested "volume" techniques
      then [volume_perturbation rnd pow10 audio (-3)%R;
            volume_perturbation rnd pow10 audio 3%R]
      else []).

(** How many of the three catalogue techniques are requested. *)
Definition requested_count (techniques : list string) : nat :=
  ((if requested "speed" techniques then 1 else 0)
   + (if requested "noise" techniques then 1 else 0)
   + (if requested "volume" techniques then 1 else 0))%nat.

(** The paths of the audio files written so far. *)
Definition written_paths (w : World) : list string := map fst (files w).

(** The state of a fresh process: both global generators seeded from the
    operating system's entropy, nothing written. *)
Definition fresh_world (py_entropy np_entropy : Z) : World :=
  mkWorld (mkRng py_entropy 0) (mkRng np_entropy 0) [].

(** A join of paths for the worked examples, right for a directory name
    and a file name that hold no separator. *)
Definition join_with_slash (dir name : string) : string :=
  (dir ++ "/" ++ name)%string.

(** ** preprocess.py: the rest of the module *)

Record AudioPreprocessor : Type := mkPreprocessor {
  ap_target_sr : Z;
  ap_top_db : Z
}.

(** What [process_audio] returns: the statistics of a processed file, or
    the exception its [try] caught. *)
Inductive ProcessingOutcome : Type :=
| Processed (duration : Q) (original_sr : Z) (original_duration : Q)
            (trimmed_seconds : Q)
| Failed (error : exn).

(** [len(audio) / sr] *)
Definition seconds (audio : list npfloat) (rate : Z) : result Q :=
  pydiv (Qlen audio) (inject_Z rate).

Section ProcessAudio.

Variable rnd : R -> R.

(** [librosa.load(input_path, sr=None, mono=True)]: the samples and the
    native rate of a file; [librosa.resample]; [librosa.effects.trim],
    of which [trim_silence] keeps the trimmed signal. *)
Variable librosa_load : string -> result (list npfloat * Z).
Variable librosa_resample : list npfloat -> Z -> Z -> result (list npfloat).
Variable librosa_trim : list npfloat -> Z -> result (list npfloat).

(** [AudioPreprocessor.trim_silence] *)
Definition trim_silence (self : AudioPreprocessor) (audio : list npfloat)
  : result (list npfloat) :=
  librosa_trim audio (ap_top_db self).

(** The body of the [try] of [process_audio]; [len(audio) / sr], which the
    returned dict holds twice, is computed once.  Creating the parent
    directory and writing the file are taken to succeed. *)
Definition process_audio_body (self : AudioPreprocessor)
    (input_path output_path : string) : M ProcessingOutcome :=
  loaded <~ lift (librosa_load input_path) ;;
  let audio := fst loaded in
  let sr := snd loaded in
  let original_sr := sr in
  original_duration <~ lift (seconds audio sr) ;;
  resampled <~
    (if negb (Z.eqb sr (ap_target_sr self))
     then audio' <~ lift (librosa_resample audio sr (ap_target_sr self)) ;;
          ret (audio', ap_target_sr self)
     else ret (audio, sr)) ;;
  let audio := fst resampled in
  let sr := snd resampled in
  audio <~ lift (normalize_audio rnd audio (default_target_level rnd)) ;;
  audio <~ lift (trim_silence self audio) ;;
  _ <~ sf_write output_path audio ;;
  duration <~ lift (seconds audio sr) ;;
  ret (Processed duration original_sr original_duration
                 (original_duration - duration)%Q).

(** [AudioPreprocessor.process_audio]: whatever the body raises is caught
    and returned as a failure. *)
Definition process_audio (self : AudioPreprocessor)
    (input_path output_path : string) (w : World)
  : ProcessingOutcome * World :=
  match process_audio_body self input_path output_path w with
  | (Ok outcome, w') => (outcome, w')
  | (Raise e, w') => (Failed e, w')
  end.

End ProcessAudio.

(** [s.split(sep)] for a one-character separator, on the bytes of the
    string. *)
Fixpoint py_split (sep : ascii) (s : string) : list string :=
  match s with
  | EmptyString => [EmptyString]
  | String c s' =>
      if Ascii.eqb c sep then EmptyString :: py_split sep s'
      else match py_split sep s' with
           | h :: t => String c h :: t
           | [] => [String c EmptyString]
           end
  end.

(** [audio_id.split('_')[0]], the speaker id of an OpenSLR utterance. *)
Definition openslr_speaker (audio_id : string) : result string :=
  match py_split "_" audio_id with
  | h :: _ => Ok h
  | [] => Raise IndexError
  end.

Section Main.

Variable mt_draw : Z -> nat -> nat.

(** The record-level split of [main]:
    [train_test_split(all_samples, test_size=0.2, random_state=42)], then
    [train_test_split(temp_data, test_size=0.5, random_state=42)]. *)
Definition random_split (all_samples : list Sample)
  : result (list Sample * list Sample * list Sample) :=
  ' (train_data, temp_data) <-
      train_test_split mt_draw all_samples (2 # 10) 42 ;;
  ' (valid_data, test_data) <-
      train_test_split mt_draw temp_data (5 # 10) 42 ;;
  Ok (train_data, valid_data, test_data).

(** The [if args.speaker_split] of [main]; the splitter is built with
    ratios 0.8, 0.1, 0.1 and the default seed 42. *)
Definition main_split (use_speaker_split : bool) (all_samples : list Sample)
  : result (list Sample * list Sample * list Sample) :=
  if use_speaker_split
  then run_speaker_split mt_draw (8 # 10) (1 # 10) (1 # 10) 42 all_samples
  else random_split all_samples.

(** [main] from the split to the statistics object. *)
Definition main_report (get_duration : string -> Q) (sample_rate : Z)
    (use_speaker_split : bool) (all_samples : list Sample) : result Stats :=
  ' (train_data, valid_data, test_data) <-
      main_split use_speaker_split all_samples ;;
  Ok (main_stats get_duration sample_rate use_speaker_split
                 all_samples train_data valid_data test_data).

End Main.

(** ** augment.py: the rest of the module *)

(** A row of the input manifest as [csv.DictReader] yields it when all four
    columns are present. *)
Record Row : Type := mkRow {
  row_path : string;
  row_transcript : string;
  row_speaker : string;
  row_locale : string
}.

(** The record minted for one augmented file of a source row. *)
Definition augmented_row (sample : Row) (aug_file : string * string) : Row :=
  mkRow (fst aug_file) (row_transcript sample)
        (row_speaker sample ++ "_" ++ snd aug_file)%string
        (row_locale sample).

Section AugmentDataset.

Variable rnd : R -> R.
Variable pow10 : R -> R.
Variable normal_draw : Z -> nat -> R.
Variable py_draw : Z -> nat -> nat.
Variable time_stretch : list npfloat -> R -> result (list npfloat).
Variable load : string -> Z -> result (list npfloat).
Variable stem : string -> string.
Variable path_div : string -> string -> string.

(** The loop [for sample in samples_to_augment] of [augment_dataset]. *)
Definition augment_selected (augmenter : AudioAugmenter)
    (output_audio_dir : string) (techniques : list string)
    (samples_to_augment : list Row) : M (list Row) :=
  foldM (fun augmented_samples sample =>
           aug_files <~
             augment_audio rnd pow10 normal_draw time_stretch load stem
               path_div augmenter
               (row_path sample)
               (path_div output_audio_dir (row_speaker sample))
               techniques ;;
           ret (augmented_samples ++ map (augmented_row sample) aug_files))
        samples_to_augment [].

(** [augment_dataset], from the rows read to the rows written:
    [all_samples = samples + augmented_samples]. *)
Definition augment_dataset (samples : list Row) (output_audio_dir : string)
    (techniques : list string) (augment_ratio : Q) : M (list Row) :=
  augmenter <~ AudioAugmenter_init 16000 42 ;;
  let num_to_augment := pyint (Qlen samples * augment_ratio) in
  samples_to_augment <~ random_sample py_draw samples num_to_augment ;;
  augmented_samples <~
    augment_selected augmenter output_audio_dir techniques samples_to_augment ;;
  ret (samples ++ augmented_samples).

End AugmentDataset.

(** *** Vocabulary of the further statements *)

(** [sub] is a selection without replacement from [l]: together with some
    rest it is a rearrangement of [l]. *)
Definition selection_of {A : Type} (sub l : list A) : Prop :=
  exists rest, Permutation (sub ++ rest) l.

(** [r] was minted from [sample] under some tag. *)
Definition derived_from (sample r : Row) : Prop :=
  exists aug_path tag, r = augmented_row sample (aug_path, tag).

Definition ceil_div (a b : nat) : nat := ((a + b - 1) / b)%nat.

(** A computation whose outcome does not depend on the state of Python's
    [random] generator, which it leaves as it found it: from two states
    that agree on numpy's generator it returns the same result, leaves
    numpy's generator in the same state and writes the same files. *)
Definition ignores_python_rng {A : Type} (m : M A) : Prop :=
  forall w w',
    np_random w = np_random w' ->
    fst (m w) = fst (m w')
    /\ np_random (snd (m w)) = np_random (snd (m w'))
    /\ py_random (snd (m w)) = py_random w
    /\ exists new,
         files (snd (m w)) = files w ++ new
         /\ files (snd (m w')) = files w' ++ new.

(** The samples of a buffer that are neither infinite nor [NaN]. *)
Definition finite (x : npfloat) : Prop :=
  match x with
  | Num _ => True
  | PInf | NInf | NaN => False
  end.

(** On [n] elements one call of [train_test_split] works with the same two
    sizes, or raises the same [ValueError], in double arithmetic at the
    fraction [test_size] as in exact arithmetic at the fraction [q]. *)
Definition same_sizes (test_size : float) (q : Q) (n : nat) : bool :=
  match (' (n_train, n_test) <- Double.validate_shuffle_split n test_size ;;
         Double.validate_sizes n n_train n_test),
        validate_shuffle_split n q with
  | Ok (a, b), Ok (a', b') => (a =? a')%Z && (b =? b')%Z
  | Raise ValueError, Raise ValueError => true
  | _, _ => false
  end.

(** The same for the four fractions of [main]: 0.2 and 0.5 of the
    record-level split, [0.1 + 0.1] and [0.1 / (0.1 + 0.1)] of the
    speaker-level split. *)
Definition main_sizes_agree (n : nat) : bool :=
  same_sizes 0.2 (2 # 10) n
  && same_sizes 0.5 (5 # 10) n
  && same_sizes (0.1 + 0.1) ((1 # 10) + (1 # 10)) n
  && same_sizes (0.1 / (0.1 + 0.1)) ((1 # 10) / ((1 # 10) + (1 # 10))) n.

(** * Properties *)

(** ** Rational comparisons *)

Lemma Qltb_lt (x y : Q) : Qltb x y = true <-> (x < y)%Q.
Proof.
  unfold Qltb. rewrite negb_true_iff.
  split.
  - intros H. apply Qnot_le_lt. intros Hle.
    apply Qle_bool_iff in Hle. congruence.
  - intros H. destruct (Qle_bool y x) eqn:E; [|reflexivity].
    apply Qle_bool_iff in E. exfalso. exact (Qlt_not_le _ _ H E).
Qed.

Lemma Qltb_ge (x y : Q) : Qltb x y = false <-> (y <= x)%Q.
Proof.
  unfold Qltb. rewrite negb_false_iff. apply Qle_bool_iff.
Qed.

Lemma Qle_bool_false (x y : Q) : Qle_bool x y = false <-> (y < x)%Q.
Proof.
  split.
  - intros H. apply Qnot_le_lt. intros Hle.
    apply Qle_bool_iff in Hle. congruence.
  - intros H. destruct (Qle_bool x y) eqn:E; [|reflexivity].
    apply Qle_bool_iff in E. exfalso. exact (Qlt_not_le _ _ H E).
Qed.

(** ** Lists updated by index, and the shuffle *)

Lemma update_length {A : Type} (l : list A) (i : nat) (v : A) :
  List.length (update l i v) = List.length l.
Proof.
  revert i; induction l as [|a l IH]; intros [|i]; simpl; auto.
Qed.

Lemma nth_error_update_eq {A : Type} (l : list A) (i : nat) (v : A) :
  (i < List.length l)%nat -> nth_error (update l i v) i = Some v.
Proof.
  revert i; induction l as [|a l IH]; intros [|i] H; simpl in *;
    try lia; auto.
  apply IH; lia.
Qed.

Lemma nth_error_update_neq {A : Type} (l : list A) (i j : nat) (v : A) :
  i <> j -> nth_error (update l i v) j = nth_error l j.
Proof.
  revert i j; induction l as [|a l IH]; intros [|i] [|j] H; simpl;
    try congruence; auto.
Qed.

Lemma update_Permutation {A : Type} (l : list A) (i : nat) (a v : A) :
  nth_error l i = Some a -> Permutation (a :: update l i v) (v :: l).
Proof.
  revert i; induction l as [|x l IH]; intros [|i] H; simpl in *;
    try discriminate.
  - injection H as ->. apply perm_swap.
  - rewrite perm_swap. rewrite (IH _ H). apply perm_swap.
Qed.

Lemma swap_Permutation {A : Type} (x : list A) (i j : nat) :
  Permutation (swap x i j) x.
Proof.
  unfold swap.
  destruct (nth_error x i) as [a|] eqn:Hi; [|reflexivity].
  destruct (nth_error x j) as [b|] eqn:Hj; [|reflexivity].
  assert (Hlen : (i < List.length x)%nat)
    by (apply nth_error_Some; congruence).
  assert (Hj' : nth_error (update x i b) j = Some b).
  { destruct (Nat.eq_dec i j) as [<-|Hne].
    - now apply nth_error_update_eq.
    - now rewrite nth_error_update_neq. }
  apply (Permutation_cons_inv (a := b)).
  rewrite (update_Permutation _ _ a Hj').
  apply (update_Permutation _ _ b Hi).
Qed.

Lemma shuffle_Permutation (mt_draw : Z -> nat -> nat) (seed : Z)
    (i pos : nat) (x : list nat) :
  Permutation (shuffle mt_draw seed pos i x) x.
Proof.
  revert pos x; induction i as [|i IH]; intros pos x; simpl.
  - reflexivity.
  - rewrite IH. apply swap_Permutation.
Qed.

Lemma permutation_Permutation (mt_draw : Z -> nat -> nat) (seed : Z) (n : nat) :
  Permutation (permutation mt_draw seed n) (seq 0 n).
Proof.
  apply shuffle_Permutation.
Qed.

(** ** Indexing and [train_test_split] *)

Lemma safe_indexing_app {A : Type} (X : list A) (i1 i2 : list nat) (l1 l2 : list A) :
  safe_indexing X i1 = Ok l1 -> safe_indexing X i2 = Ok l2 ->
  safe_indexing X (i1 ++ i2) = Ok (l1 ++ l2).
Proof.
  unfold safe_indexing. revert l1.
  induction i1 as [|i i1 IH]; intros l1 H1 H2; simpl in *.
  - injection H1 as <-. exact H2.
  - destruct (nth_error X i) as [a|]; simpl in *; [|discriminate].
    destruct (mapM _ i1) as [l|] eqn:E; simpl in *; [|discriminate].
    injection H1 as <-. now rewrite (IH l eq_refl H2).
Qed.

Lemma safe_indexing_in_range {A : Type} (X : list A) (indices : list nat) :
  Forall (fun i => (i < List.length X)%nat) indices ->
  exists l, safe_indexing X indices = Ok l
            /\ map Some l = map (nth_error X) indices.
Proof.
  unfold safe_indexing.
  induction 1 as [|i indices Hi _ [l [IH1 IH2]]]; simpl.
  - now exists [].
  - destruct (nth_error X i) as [a|] eqn:E.
    + exists (a :: l). rewrite IH1. simpl. now rewrite IH2.
    + apply nth_error_None in E. lia.
Qed.

Lemma map_nth_error_seq {A : Type} (X : list A) :
  map (nth_error X) (seq 0 (List.length X)) = map Some X.
Proof.
  induction X as [|a X IH]; simpl; [reflexivity|].
  rewrite <- seq_shift, map_map. f_equal.
  rewrite <- IH. now apply map_ext.
Qed.

Lemma map_Some_inj {A : Type} (l1 l2 : list A) :
  map Some l1 = map Some l2 -> l1 = l2.
Proof.
  revert l2; induction l1 as [|a l1 IH]; intros [|b l2] H; simpl in *;
    try discriminate; [reflexivity|].
  injection H as -> H. now rewrite (IH _ H).
Qed.

Lemma Permutation_map_Some {A : Type} (l1 l2 : list A) :
  Permutation (map Some l1) (map Some l2) -> Permutation l1 l2.
Proof.
  intros H. apply Permutation_map_inv in H as [l3 [E P]].
  apply map_Some_inj in E. subst l3. now symmetry.
Qed.

Lemma Qceiling_scaled_range (ts : Q) (n : nat) :
  (0 < ts)%Q -> (ts < 1)%Q ->
  (0 <= Qceiling (ts * inject_Z (Z.of_nat n)) <= Z.of_nat n)%Z.
Proof.
  intros H0 H1.
  assert (Hn : (0 <= inject_Z (Z.of_nat n))%Q).
  { change 0%Q with (inject_Z 0). rewrite <- Zle_Qle. lia. }
  split.
  - change 0%Z with (Qceiling 0). apply Qceiling_resp_le.
    apply Qmult_le_0_compat; [now apply Qlt_le_weak | exact Hn].
  - rewrite <- (Qceiling_Z (Z.of_nat n)) at 2.
    apply Qceiling_resp_le.
    rewrite <- (Qmult_1_l (inject_Z (Z.of_nat n))) at 2.
    apply Qmult_le_compat_r; [now apply Qlt_le_weak | exact Hn].
Qed.

(** [_validate_shuffle_split] accepts exactly a fraction strictly between 0
    and 1 that leaves at least one training element. *)
Lemma validate_shuffle_split_Ok (n : nat) (ts : Q) (n_train n_test : Z) :
  validate_shuffle_split n ts = Ok (n_train, n_test) <->
  (0 < ts)%Q /\ (ts < 1)%Q
  /\ n_test = Qceiling (ts * inject_Z (Z.of_nat n))
  /\ n_train = (Z.of_nat n - n_test)%Z
  /\ (n_test < Z.of_nat n)%Z.
Proof.
  unfold validate_shuffle_split.
  destruct (Qle_bool ts 0) eqn:E0; simpl.
  { apply Qle_bool_iff in E0. split; [discriminate|].
    intros [H _]. exfalso. exact (Qlt_not_le _ _ H E0). }
  destruct (Qle_bool 1 ts) eqn:E1; simpl.
  { apply Qle_bool_iff in E1. split; [discriminate|].
    intros [_ [H _]]. exfalso. exact (Qlt_not_le _ _ H E1). }
  apply Qle_bool_false in E0, E1.
  set (b := Qceiling (ts * inject_Z (Z.of_nat n))).
  destruct (Z.gtb_spec (Z.of_nat n - b + b) (Z.of_nat n)) as [Hgt|_]; [lia|].
  destruct (Z.eqb_spec (Z.of_nat n - b) 0) as [Hz|Hz].
  - split; [discriminate|]. intros (_ & _ & -> & _ & H). lia.
  - pose proof (Qceiling_scaled_range n E0 E1) as Hr. fold b in Hr.
    split.
    + intros H. injection H as <- <-. repeat split; auto. lia.
    + intros (_ & _ & -> & -> & _). reflexivity.
Qed.

Lemma validate_shuffle_split_Raise (n : nat) (ts : Q) :
  (forall a b, validate_shuffle_split n ts <> Ok (a, b)) ->
  validate_shuffle_split n ts = Raise ValueError.
Proof.
  intros H. unfold validate_shuffle_split in *.
  repeat match goal with
         | |- context [if ?c then _ else _] => destruct c
         end; try reflexivity.
  exfalso. eapply H. reflexivity.
Qed.

Section SplitFacts.

Variable mt_draw : Z -> nat -> nat.

Lemma permutation_in_range (seed : Z) (n : nat) :
  Forall (fun i => (i < n)%nat) (permutation mt_draw seed n).
Proof.
  apply Forall_forall. intros i Hi.
  apply (Permutation_in _ (permutation_Permutation mt_draw seed n)) in Hi.
  apply in_seq in Hi. lia.
Qed.

Lemma train_test_split_Ok {A : Type} (arr : list A) (ts : Q) (seed : Z)
    (n_train n_test : Z) :
  validate_shuffle_split (List.length arr) ts = Ok (n_train, n_test) ->
  exists train test,
    train_test_split mt_draw arr ts seed = Ok (train, test)
    /\ Permutation (train ++ test) arr
    /\ List.length test = Z.to_nat n_test.
Proof.
  intros Hv. unfold train_test_split. rewrite Hv. simpl.
  apply validate_shuffle_split_Ok in Hv as (H0 & H1 & Hb & Ha & Hlt).
  pose proof (Qceiling_scaled_range (List.length arr) H0 H1) as Hr.
  rewrite <- Hb in Hr.
  set (p := permutation mt_draw seed (List.length arr)).
  assert (Hp : Permutation p (seq 0 (List.length arr)))
    by apply permutation_Permutation.
  assert (Hlen : List.length p = List.length arr).
  { rewrite (Permutation_length Hp). apply length_seq. }
  assert (Hrange : Forall (fun i => (i < List.length arr)%nat) p)
    by apply permutation_in_range.
  assert (Htrain : firstn (Z.to_nat n_train) (skipn (Z.to_nat n_test) p)
                   = skipn (Z.to_nat n_test) p).
  { apply firstn_all2. rewrite length_skipn. lia. }
  rewrite Htrain.
  destruct (safe_indexing_in_range arr
              (indices := skipn (Z.to_nat n_test) p)) as [train [Etr Mtr]].
  { rewrite <- (firstn_skipn (Z.to_nat n_test) p) in Hrange.
    now apply Forall_app in Hrange. }
  destruct (safe_indexing_in_range arr
              (indices := firstn (Z.to_nat n_test) p)) as [test [Ete Mte]].
  { rewrite <- (firstn_skipn (Z.to_nat n_test) p) in Hrange.
    now apply Forall_app in Hrange. }
  exists train, test. rewrite Etr, Ete. simpl.
  split; [reflexivity|]. split.
  - rewrite Permutation_app_comm. apply Permutation_map_Some.
    rewrite map_app, Mtr, Mte, <- map_app, firstn_skipn.
    rewrite <- map_nth_error_seq. now apply Permutation_map.
  - apply (f_equal (@List.length _)) in Mte.
    rewrite !length_map, length_firstn in Mte. lia.
Qed.

Lemma train_test_split_Raise {A : Type} (arr : list A) (ts : Q) (seed : Z)
    (e : exn) :
  validate_shuffle_split (List.length arr) ts = Raise e ->
  train_test_split mt_draw arr ts seed = Raise e.
Proof.
  intros H. unfold train_test_split. now rewrite H.
Qed.

End SplitFacts.

(** ** Grouping by speaker *)

Lemma dict_get_append (d : list (string * list Sample)) (k k' : string)
    (s : Sample) :
  dict_get (dict_append d k s) k'
  = if String.eqb k k' then dict_get d k' ++ [s] else dict_get d k'.
Proof.
  induction d as [|[k0 l] d IH]; simpl.
  - now destruct (String.eqb_spec k k').
  - destruct (String.eqb_spec k0 k) as [->|Hk0]; simpl.
    + destruct (String.eqb_spec k k'); reflexivity.
    + destruct (String.eqb_spec k0 k') as [->|Hk0'].
      * destruct (String.eqb_spec k k'); [congruence|reflexivity].
      * exact IH.
Qed.

Lemma dict_keys_append_In (d : list (string * list Sample)) (k k' : string)
    (s : Sample) :
  In k' (dict_keys (dict_append d k s)) <-> In k' (dict_keys d) \/ k' = k.
Proof.
  unfold dict_keys.
  induction d as [|[k0 l] d IH]; simpl.
  - intuition.
  - destruct (String.eqb_spec k0 k) as [->|Hk0]; simpl.
    + intuition.
    + rewrite IH. intuition.
Qed.

Lemma dict_keys_append_NoDup (d : list (string * list Sample)) (k : string)
    (s : Sample) :
  NoDup (dict_keys d) -> NoDup (dict_keys (dict_append d k s)).
Proof.
  induction d as [|[k0 l] d IH]; simpl; intros H.
  - constructor; [intros []|constructor].
  - destruct (String.eqb_spec k0 k) as [->|Hk0]; simpl; [exact H|].
    inversion H as [|? ? Hnin Hnd]; subst.
    constructor; [|now apply IH].
    intros Hin. apply dict_keys_append_In in Hin as [Hin|Hin];
      [now apply Hnin | congruence].
Qed.

Lemma group_fold_spec (data : list Sample) (d : list (string * list Sample)) :
  let d' := fold_left (fun d sample => dict_append d (get_speaker sample) sample)
                      data d in
  (NoDup (dict_keys d) -> NoDup (dict_keys d'))
  /\ (forall k, dict_get d' k = dict_get d k ++ filter (speaker_is k) data)
  /\ (forall k, In k (dict_keys d') <->
                In k (dict_keys d) \/ In k (map get_speaker data)).
Proof.
  revert d; induction data as [|s data IH]; intros d; simpl.
  - repeat split; auto; try tauto.
    intros k. now rewrite app_nil_r.
  - destruct (IH (dict_append d (get_speaker s) s)) as (IH1 & IH2 & IH3).
    repeat split.
    + intros H. now apply IH1, dict_keys_append_NoDup.
    + intros k. rewrite IH2, dict_get_append. unfold speaker_is at 2.
      destruct (String.eqb_spec (get_speaker s) k); simpl;
        [now rewrite <- app_assoc | reflexivity].
    + rewrite IH3, dict_keys_append_In. intuition.
    + rewrite IH3, dict_keys_append_In. intuition.
Qed.

Lemma group_by_speaker_get (data : list Sample) (k : string) :
  dict_get (group_by_speaker data) k = filter (speaker_is k) data.
Proof.
  destruct (group_fold_spec data []) as (_ & H & _). apply H.
Qed.

Lemma distinct_speakers_NoDup (data : list Sample) :
  NoDup (distinct_speakers data).
Proof.
  destruct (group_fold_spec data []) as (H & _ & _). apply H. constructor.
Qed.

Lemma distinct_speakers_In (data : list Sample) (k : string) :
  In k (distinct_speakers data) <-> In k (map get_speaker data).
Proof.
  destruct (group_fold_spec data []) as (_ & _ & H).
  unfold distinct_speakers, group_by_speaker. rewrite H. simpl. tauto.
Qed.

(** ** Expanding speaker lists back into records *)

Lemma flat_map_ext_in {A B : Type} (f g : A -> list B) (l : list A) :
  (forall a, In a l -> f a = g a) -> flat_map f l = flat_map g l.
Proof.
  induction l as [|a l IH]; intros H; simpl; [reflexivity|].
  rewrite (H a (or_introl eq_refl)), IH; [reflexivity|].
  intros b Hb. apply H. now right.
Qed.

Lemma flat_map_nil {A B : Type} (l : list A) :
  flat_map (fun _ : A => @nil B) l = [].
Proof.
  induction l; simpl; auto.
Qed.

Lemma filter_speaker_none (k : string) (data : list Sample) :
  ~ In k (map get_speaker data) -> filter (speaker_is k) data = [].
Proof.
  induction data as [|s data IH]; simpl; intros H; [reflexivity|].
  unfold speaker_is at 1.
  destruct (String.eqb_spec (get_speaker s) k) as [E|_]; [tauto|].
  apply IH. tauto.
Qed.

Lemma filter_filter_speaker (k k0 : string) (data : list Sample) :
  filter (speaker_is k) (filter (speaker_is k0) data)
  = if String.eqb k0 k then filter (speaker_is k) data else [].
Proof.
  induction data as [|s data IH]; simpl.
  - now destruct (String.eqb k0 k).
  - destruct (speaker_is k0 s) eqn:E0; destruct (speaker_is k s) eqn:E;
      simpl; rewrite ?E, IH; unfold speaker_is in E0, E;
      destruct (String.eqb_spec k0 k) as [Ek|Ek]; try reflexivity;
      exfalso;
      rewrite ?String.eqb_eq, ?String.eqb_neq in E0, E; congruence.
Qed.

Lemma expand_In (data : list Sample) (ks : list string) (s : Sample) :
  In s (flat_map (dict_get (group_by_speaker data)) ks)
  <-> In s data /\ In (get_speaker s) ks.
Proof.
  rewrite in_flat_map. split.
  - intros [k [Hk Hs]]. rewrite group_by_speaker_get in Hs.
    apply filter_In in Hs as [Hs E]. apply String.eqb_eq in E.
    split; [exact Hs | now rewrite E].
  - intros [Hs Hk]. exists (get_speaker s). split; [exact Hk|].
    rewrite group_by_speaker_get. apply filter_In. split; [exact Hs|].
    apply String.eqb_refl.
Qed.

Lemma expand_filter (data : list Sample) (ks : list string) (k : string) :
  NoDup ks ->
  filter (speaker_is k) (flat_map (dict_get (group_by_speaker data)) ks)
  = if in_dec string_dec k ks then filter (speaker_is k) data else [].
Proof.
  induction 1 as [|k0 ks Hnin Hnd IH]; simpl; [reflexivity|].
  rewrite filter_app, IH, group_by_speaker_get, filter_filter_speaker.
  destruct (string_dec k0 k) as [->|Hne].
  - rewrite String.eqb_refl.
    destruct (in_dec string_dec k ks); [contradiction|apply app_nil_r].
  - destruct (String.eqb_spec k0 k); [contradiction|].
    now destruct (in_dec string_dec k ks).
Qed.

Lemma expand_Permutation (data : list Sample) (ks : list string) :
  NoDup ks ->
  (forall s, In s data -> In (get_speaker s) ks) ->
  Permutation (flat_map (dict_get (group_by_speaker data)) ks) data.
Proof.
  intros Hnd.
  rewrite (flat_map_ext _ _ (group_by_speaker_get data)).
  induction data as [|x data IH]; intros Hall.
  - simpl. now rewrite flat_map_nil.
  - destruct (in_split _ _ (Hall x (or_introl eq_refl))) as (k1 & k2 & E).
    subst ks.
    assert (Hother : forall k, In k (k1 ++ k2) ->
              filter (speaker_is k) (x :: data) = filter (speaker_is k) data).
    { intros k Hk. simpl. unfold speaker_is at 1.
      destruct (String.eqb_spec (get_speaker x) k) as [<-|_]; [|reflexivity].
      apply NoDup_remove_2 in Hnd. contradiction. }
    rewrite flat_map_app. simpl flat_map.
    rewrite (flat_map_ext_in _ (fun k => filter (speaker_is k) data) k1),
            (flat_map_ext_in _ (fun k => filter (speaker_is k) data) k2).
    2,3: intros k Hk; apply Hother, in_or_app; tauto.
    simpl filter at 1. unfold speaker_is at 2. rewrite String.eqb_refl.
    simpl. rewrite <- Permutation_middle. constructor.
    transitivity (flat_map (fun k => filter (speaker_is k) data)
                           (k1 ++ get_speaker x :: k2)).
    + rewrite flat_map_app. reflexivity.
    + apply IH. intros s Hs. apply Hall. now right.
Qed.

Lemma NoDup_app_disjoint {A : Type} (l1 l2 : list A) (a : A) :
  NoDup (l1 ++ l2) -> In a l1 -> ~ In a l2.
Proof.
  induction l1 as [|x l1 IH]; simpl; intros Hnd [].
  - subst x. inversion Hnd as [|? ? Hnin _]; subst.
    intros Hin. apply Hnin, in_or_app. now right.
  - inversion Hnd; subst. now apply IH.
Qed.

Lemma expand_disjoint (data : list Sample) (ks1 ks2 : list string) :
  (forall k, In k ks1 -> ~ In k ks2) ->
  speaker_disjoint (flat_map (dict_get (group_by_speaker data)) ks1)
                   (flat_map (dict_get (group_by_speaker data)) ks2).
Proof.
  intros Hd s1 s2 H1 H2 E.
  apply expand_In in H1 as [_ H1]. apply expand_In in H2 as [_ H2].
  rewrite E in H1. exact (Hd _ H1 H2).
Qed.

(** Any partition of the speaker ids into three lists expands into a split
    with the three properties. *)
Lemma expand_invariant (data : list Sample) (trs vas tes : list string) :
  Permutation (trs ++ vas ++ tes) (distinct_speakers data) ->
  split_invariant data
    (flat_map (dict_get (group_by_speaker data)) trs)
    (flat_map (dict_get (group_by_speaker data)) vas)
    (flat_map (dict_get (group_by_speaker data)) tes).
Proof.
  intros HP.
  assert (Hnd : NoDup (trs ++ vas ++ tes)).
  { apply (Permutation_NoDup (Permutation_sym HP)), distinct_speakers_NoDup. }
  assert (Hin : forall k, In k (trs ++ vas ++ tes) <-> In k (map get_speaker data)).
  { intros k. rewrite <- distinct_speakers_In.
    split; apply Permutation_in; [exact HP | now symmetry]. }
  unfold split_invariant. rewrite <- !flat_map_app.
  repeat split.
  - apply expand_disjoint. intros k H1 H2.
    apply (NoDup_app_disjoint _ _ _ Hnd H1), in_or_app. now left.
  - apply expand_disjoint. intros k H1 H2.
    apply (NoDup_app_disjoint _ _ _ Hnd H1), in_or_app. now right.
  - apply expand_disjoint. intros k H1.
    apply NoDup_app_remove_l in Hnd. now apply (NoDup_app_disjoint _ _ _ Hnd).
  - apply expand_Permutation; [exact Hnd|].
    intros s Hs. apply Hin. now apply in_map.
  - intros k. rewrite (expand_filter data k Hnd).
    destruct (in_dec string_dec k (trs ++ vas ++ tes)) as [_|Hn];
      [reflexivity|].
    symmetry. apply filter_speaker_none. now rewrite <- Hin.
Qed.

(** ** The speaker-level split *)

Lemma pydiv_nonzero (a b : Q) : ~ (b == 0)%Q -> pydiv a b = Ok (a / b)%Q.
Proof.
  intros H. unfold pydiv.
  destruct (Qeq_bool b 0) eqn:E; [|reflexivity].
  apply Qeq_bool_iff in E. contradiction.
Qed.

(** ** The split on double-precision ratios *)





(** An instance on which the split on doubles returns: seven speakers,
    default ratios. *)
Example double_split_by_speaker_seven_speakers :
  let data := [example_sample "a1" "A"; example_sample "b1" "B";
               example_sample "a2" "A"; example_sample "c1" "C";
               example_sample "d1" "D"; example_sample "e1" "E";
               example_sample "f1" "F"; mkSample "u1" "text" None "bn";
               example_sample "b2" "B"] in
  match Double.split_by_speaker example_draw
          (Double.mkSplitter 0.8 0.1 0.1 42) data with
  | Ok (train, valid, test) =>
      map path train = ["e1"; "c1"; "u1"; "a1"; "a2"; "f1"]%string
      /\ map path valid = ["d1"%string]
      /\ map path test = ["b1"; "b2"]%string
  | Raise _ => False
  end.
Proof.
  vm_compute. repeat split.
Qed.

(** Ratios whose sizes differ between exact and double arithmetic: 0.4,
    0.06 and 0.54 on fifteen speakers.  The doubles 0.06 + 0.54 give
    0.6000000000000001 and ten speakers for valid and test; the split
    returns five, one and nine speakers. *)
Example double_split_fifteen_speakers :
  let data := map (fun r => mkSample (path r) "text" (Some (path r)) "bn")
                  (numbered_records 15) in
  match Double.split_by_speaker example_draw
          (Double.mkSplitter 0.4 0.06 0.54 42) data with
  | Ok (train, valid, test) =>
      List.length train = 5%nat /\ List.length valid = 1%nat
      /\ List.length test = 9%nat
  | Raise _ => False
  end.
Proof.
  vm_compute. repeat split.
Qed.

(** C2 (as amended).  With ratios (1.0, 0, 0) the splitter is constructed,
    and the split of the three scenario records raises [ValueError]
    whatever the generator and the seed: the first [train_test_split] is
    called with test size 0. *)
Theorem split_scenario_one_zero_zero_raises
    (mt_draw : Z -> nat -> nat) (seed : Z) :
  DatasetSplitter_init 1 0 0 seed = Ok (mkSplitter 1 0 0 seed)
  /\ split_by_speaker mt_draw (mkSplitter 1 0 0 seed) scenario_records
     = Raise ValueError
  /\ run_speaker_split mt_draw 1 0 0 seed scenario_records = Raise ValueError.
Proof.
  repeat split.
Qed.

(** C2 as stated fails: the run on the scenario does not put the three
    records in train with empty valid and test. *)
Lemma split_scenario_not_all_train :
  ~ exists train,
      run_speaker_split example_draw 1 0 0 42 scenario_records
      = Ok (train, [], []).
Proof.
  intros [train H]. vm_compute in H. discriminate.
Qed.

(** The same scenario on doubles. *)
Example double_split_scenario_raises (mt_draw : Z -> nat -> nat) (seed : Z) :
  Double.run_speaker_split mt_draw 1 0 0 seed scenario_records
  = Raise ValueError.
Proof.
  reflexivity.
Qed.

(** C6 (as amended).  The constructor computes the sum of the three ratios
    and its distance from one in double arithmetic.  When that distance is
    not below the double 1e-6 the constructor raises [AssertionError], and
    the run raises it before any record is looked at; when it is below, the
    splitter is constructed. *)
Theorem DatasetSplitter_init_checks_ratio_sum
    (train valid test : float) (seed : Z) :
  let distance := PrimFloat.abs (train + valid + test - 1)%float in
  (PrimFloat.ltb distance 1e-6 = false ->
     Double.DatasetSplitter_init train valid test seed = Raise AssertionError
     /\ forall mt_draw data,
          Double.run_speaker_split mt_draw train valid test seed data
          = Raise AssertionError)
  /\ (PrimFloat.ltb distance 1e-6 = true ->
        Double.DatasetSplitter_init train valid test seed
        = Ok (Double.mkSplitter train valid test seed)).
Proof.
  intros distance.
  unfold Double.run_speaker_split, Double.DatasetSplitter_init.
  fold distance. split.
  - intros ->. now split.
  - intros ->. reflexivity.
Qed.

Lemma DatasetSplitter_init_checks_ratio_sum_witness :
  (Double.DatasetSplitter_init 1 0.5 0 42 = Raise AssertionError
   /\ forall mt_draw data,
        Double.run_speaker_split mt_draw 1 0.5 0 42 data = Raise AssertionError)
  /\ Double.DatasetSplitter_init 0.8 0.1 0.1 42
     = Ok (Double.mkSplitter 0.8 0.1 0.1 42).
Proof.
  split.
  - apply (proj1 (DatasetSplitter_init_checks_ratio_sum 1 0.5 0 42)).
    vm_compute. reflexivity.
  - apply (proj2 (DatasetSplitter_init_checks_ratio_sum 0.8 0.1 0.1 42)).
    vm_compute. reflexivity.
Defined.

(** C6 as stated fails on both sides of the tolerance.  The doubles 0.5,
    0.4375 and 0.06250100000000001 have a sum further than 1e-6 from one,
    and the splitter is constructed; the doubles 0.5, 0.375 and
    0.12499900000000001 have a sum closer than 1e-6 to one, and the
    constructor raises. *)
Lemma DatasetSplitter_init_tolerance_is_rounded :
  (exists d,
      Double.exact_sum_error 0.5 0.4375 0.06250100000000001 = Some d
      /\ (1 # 1000000 < d)%Q)
  /\ Double.DatasetSplitter_init 0.5 0.4375 0.06250100000000001 42
     = Ok (Double.mkSplitter 0.5 0.4375 0.06250100000000001 42)
  /\ (exists d,
        Double.exact_sum_error 0.5 0.375 0.12499900000000001 = Some d
        /\ (d < 1 # 1000000)%Q)
  /\ Double.DatasetSplitter_init 0.5 0.375 0.12499900000000001 42
     = Raise AssertionError.
Proof.
  split; [|split; [|split]].
  - eexists. split; [vm_compute; reflexivity|]. vm_compute. reflexivity.
  - vm_compute. reflexivity.
  - eexists. split; [vm_compute; reflexivity|]. vm_compute. reflexivity.
  - vm_compute. reflexivity.
Qed.

(** An instance on which the exact split returns: seven speakers, default
    ratios. *)
Example split_by_speaker_seven_speakers :
  let data := [example_sample "a1" "A"; example_sample "b1" "B";
               example_sample "a2" "A"; example_sample "c1" "C";
               example_sample "d1" "D"; example_sample "e1" "E";
               example_sample "f1" "F"; mkSample "u1" "text" None "bn";
               example_sample "b2" "B"] in
  match split_by_speaker example_draw
          (mkSplitter (8 # 10) (1 # 10) (1 # 10) 42) data with
  | Ok (train, valid, test) =>
      map path train = ["e1"; "c1"; "u1"; "a1"; "a2"; "f1"]%string
      /\ map path valid = ["d1"%string]
      /\ map path test = ["b1"; "b2"]%string
  | Raise _ => False
  end.
Proof.
  vm_compute. repeat split.
Qed.

(** ** The duration estimate of [main] *)

Lemma Qsum_map_ext {A : Type} (f g : A -> Q) (l : list A) :
  (forall a, In a l -> f a = g a) -> Qsum (map f l) = Qsum (map g l).
Proof.
  intros H. f_equal. apply map_ext_in. exact H.
Qed.

Lemma Qsum_uniform {A : Type} (f : A -> Q) (d : Q) (l : list A) :
  (forall a, In a l -> (f a == d)%Q) -> (Qsum (map f l) == d * Qlen l)%Q.
Proof.
  unfold Qlen. induction l as [|a l IH]; intros H.
  - simpl. change (inject_Z 0) with 0%Q. ring.
  - cbn [map Qsum fold_right List.length].
    change (fold_right Qplus 0%Q (map f l)) with (Qsum (map f l)).
    rewrite IH by (intros b Hb; apply H; now right).
    rewrite (H a (or_introl eq_refl)).
    rewrite Nat2Z.inj_succ. unfold Z.succ. rewrite inject_Z_plus.
    change (inject_Z 1) with 1%Q. ring.
Qed.

(** C10 (as amended).  Whatever the length of the train split, the
    estimate is the summed duration of its first 100 records times
    [len(train) / 100]; it reads only the durations of those records: other
    durations and the valid and test lists do not change it.  For a train
    split of fewer than 100 records it is the summed train duration times
    [len(train) / 100], which is strictly less than the summed train
    duration whenever that sum is positive.  For 100 records it is the
    summed train duration, and for 100 records or more whose first 100
    files all last [d] seconds it is [d * len(train)]. *)
Theorem total_duration_first_hundred_scaled
    (get_duration : string -> Q) (train_data : list Sample) :
  (total_duration get_duration train_data
   == summed_duration get_duration (firstn 100 train_data)
      * (Qlen train_data / 100))%Q
  /\ (forall get_duration' sample_rate spk all_samples valid_data test_data
             all_samples' valid_data' test_data',
        (forall s, In s (firstn 100 train_data) ->
                   get_duration' (path s) = get_duration (path s)) ->
        estimated_hours (main_stats get_duration' sample_rate spk
                           all_samples' train_data valid_data' test_data')
        = estimated_hours (main_stats get_duration sample_rate spk
                             all_samples train_data valid_data test_data))
  /\ ((List.length train_data < 100)%nat ->
      (total_duration get_duration train_data
       == summed_duration get_duration train_data * (Qlen train_data / 100))%Q
      /\ ((0 < summed_duration get_duration train_data)%Q ->
          (total_duration get_duration train_data
           < summed_duration get_duration train_data)%Q))
  /\ (List.length train_data = 100%nat ->
      (total_duration get_duration train_data
       == summed_duration get_duration train_data)%Q)
  /\ (forall d : Q,
        (100 <= List.length train_data)%nat ->
        (forall s, In s (firstn 100 train_data) ->
                   (get_duration (path s) == d)%Q) ->
        (total_duration get_duration train_data == d * Qlen train_data)%Q).
Proof.
  split; [reflexivity|]. split; [|split; [|split]].
  - intros gd' sample_rate spk a v t a' v' t' Hagree.
    unfold main_stats, total_duration. cbn [estimated_hours].
    now rewrite (Qsum_map_ext _ _ _ Hagree).
  - intros Hlen. unfold total_duration, summed_duration.
    rewrite firstn_all2 by lia.
    split; [reflexivity|].
    intros Hpos.
    set (S := Qsum (map (fun sample => get_duration (path sample)) train_data))
      in *.
    assert (Hfrac : (Qlen train_data / 100 < 1)%Q).
    { apply Qlt_shift_div_r; [reflexivity|].
      unfold Qlen. change (1 * 100)%Q with (inject_Z 100).
      rewrite <- Zlt_Qlt. lia. }
    rewrite <- (Qmult_1_r S) at 2.
    rewrite !(Qmult_comm S).
    now apply Qmult_lt_compat_r.
  - intros Hlen. unfold total_duration, summed_duration.
    rewrite firstn_all2 by lia.
    unfold Qlen. rewrite Hlen. change (inject_Z (Z.of_nat 100)) with 100%Q.
    field.
  - intros d Hlen Hd. unfold total_duration.
    rewrite (@Qsum_uniform _ (fun sample => get_duration (path sample)) d _ Hd).
    unfold Qlen at 1. rewrite length_firstn, Nat.min_l by exact Hlen.
    change (inject_Z (Z.of_nat 100)) with 100%Q. field.
Qed.

Lemma total_duration_first_hundred_scaled_witness :
  (total_duration (fun _ => 3) [example_sample "a1.wav" "A"]
   < summed_duration (fun _ => 3) [example_sample "a1.wav" "A"])%Q
  /\ (total_duration (fun _ => 1) (numbered_records 100)
      == summed_duration (fun _ => 1) (numbered_records 100))%Q
  /\ (total_duration (fun _ => 1) (numbered_records 150)
      == 1 * Qlen (numbered_records 150))%Q.
Proof.
  split; [|split].
  - apply (proj1 (proj2 (proj2 (total_duration_first_hundred_scaled
                                  (fun _ => 3) [example_sample "a1.wav" "A"])))).
    + simpl. lia.
    + reflexivity.
  - apply (proj1 (proj2 (proj2 (proj2 (total_duration_first_hundred_scaled
                                         (fun _ => 1) (numbered_records 100)))))).
    reflexivity.
  - apply (proj2 (proj2 (proj2 (proj2 (total_duration_first_hundred_scaled
                                         (fun _ => 1) (numbered_records 150)))))).
    + unfold numbered_records. rewrite length_map, length_seq. lia.
    + intros s _. reflexivity.
Defined.

(** 150 files of one second each are estimated at 150 seconds. *)
Example total_duration_150_records :
  (total_duration (fun _ => 1) (numbered_records 150) == 150)%Q.
Proof.
  vm_compute. reflexivity.
Qed.

(** C10 as stated fails: a non-empty train split of fewer than 100 records
    whose files all have duration zero is not undercounted. *)
Lemma total_duration_zero_not_undercount :
  (0 < List.length [example_sample "a1.wav" "A"] < 100)%nat
  /\ ~ (total_duration (fun _ => 0) [example_sample "a1.wav" "A"]
        < summed_duration (fun _ => 0) [example_sample "a1.wav" "A"])%Q.
Proof.
  split; [simpl; lia|].
  vm_compute. discriminate.
Qed.

(** ** Double precision *)

Lemma max_float_ge_1 : (1 <= max_float)%R.
Proof.
  unfold max_float. apply IZR_le. apply Z.leb_le. vm_compute. reflexivity.
Qed.

Lemma unit_roundoff_pos : (0 < unit_roundoff)%R.
Proof.
  unfold unit_roundoff. apply Rinv_0_lt_compat, IZR_lt.
  apply Z.ltb_lt. vm_compute. reflexivity.
Qed.

Lemma half_min_float_pos : (0 < half_min_float)%R.
Proof.
  unfold half_min_float. apply Rinv_0_lt_compat, IZR_lt.
  apply Z.ltb_lt. vm_compute. reflexivity.
Qed.

(** Arithmetic without rounding error is a rounding. *)
Lemma rounding_exact : rounding exact.
Proof.
  constructor; unfold exact; intros; try reflexivity; try assumption.
  replace (x - x)%R with 0%R by ring. rewrite Rabs_R0.
  pose proof unit_roundoff_pos. pose proof half_min_float_pos.
  pose proof (Rabs_pos x). nra.
Qed.

Section RoundingFacts.

Variable rnd : R -> R.
Hypothesis Hrnd : rounding rnd.

Lemma rnd_nonneg (x : R) : (0 <= x)%R -> (0 <= rnd x)%R.
Proof.
  intros H. rewrite <- (rnd_0 Hrnd). now apply (rnd_monotone Hrnd).
Qed.

Lemma rnd_abs (x : R) : Rabs (rnd x) = rnd (Rabs x).
Proof.
  destruct (Rcase_abs x) as [Hneg|Hpos].
  - rewrite (Rabs_left x) by exact Hneg. rewrite (rnd_opp Hrnd).
    assert (H : (0 <= rnd (- x))%R) by (apply rnd_nonneg; lra).
    rewrite (rnd_opp Hrnd) in H.
    rewrite Rabs_left1 by lra. reflexivity.
  - rewrite (Rabs_right x) by exact Hpos.
    apply Rabs_right, Rle_ge, rnd_nonneg. lra.
Qed.

Lemma rnd_abs_le (x y : R) : (Rabs x <= y)%R -> (Rabs (rnd x) <= rnd y)%R.
Proof.
  intros H. rewrite rnd_abs. now apply (rnd_monotone Hrnd).
Qed.

Lemma rnd_abs_le_1 (x : R) : (Rabs x <= 1)%R -> (Rabs (rnd x) <= 1)%R.
Proof.
  intros H. pose proof (rnd_abs_le _ H) as H1.
  rewrite (rnd_1 Hrnd) in H1. exact H1.
Qed.

Lemma double_095_range : (0 <= double_095 rnd <= 1)%R.
Proof.
  unfold double_095. split.
  - apply rnd_nonneg. lra.
  - rewrite <- (rnd_1 Hrnd). apply (rnd_monotone Hrnd). lra.
Qed.

Lemma fl_finite (x : R) :
  (Rabs (rnd x) <= max_float)%R -> fl rnd x = Num (rnd x).
Proof.
  intros H. unfold fl. now destruct (Rle_dec (Rabs (rnd x)) max_float).
Qed.

Lemma fl_small (x : R) : (Rabs x <= 1)%R -> fl rnd x = Num (rnd x).
Proof.
  intros H. apply fl_finite.
  pose proof (rnd_abs_le_1 _ H). pose proof max_float_ge_1. lra.
Qed.

Lemma fl_0 : fl rnd 0 = Num 0.
Proof.
  rewrite fl_small by (rewrite Rabs_R0; lra). now rewrite (rnd_0 Hrnd).
Qed.

(** The rounded product with a factor that is not negative commutes with
    the absolute value. *)
Lemma rnd_abs_scale (x s : R) :
  (0 <= s)%R -> Rabs (rnd (x * s)) = rnd (Rabs x * s).
Proof.
  intros Hs. rewrite rnd_abs, Rabs_mult, (Rabs_right s) by lra. reflexivity.
Qed.

End RoundingFacts.

(** ** numpy operations on real-valued buffers *)



Lemma Rsign_neg (r : R) : (r < 0)%R -> Rsign r = Lt.
Proof.
  intros H. unfold Rsign.
  destruct (total_order_T 0 r) as [[?|?]|?]; try reflexivity; lra.
Qed.

Lemma np_div_Num (rnd : R -> R) (a b : R) :
  b <> 0%R -> np_div rnd (Num a) (Num b) = fl rnd (a / b).
Proof.
  intros H. simpl. now destruct (Req_dec_T b 0).
Qed.

Lemma np_gt_Num (a b : R) :
  np_gt (Num a) (Num b) = if Rlt_dec b a then true else false.
Proof.
  reflexivity.
Qed.

Lemma INR_length_nonzero {A : Type} (l : list A) :
  l <> [] -> INR (List.length l) <> 0%R.
Proof.
  intros H. apply not_0_INR. destruct l; simpl; congruence.
Qed.

Lemma peak_of_nonneg (l : list R) : (0 <= peak_of l)%R.
Proof.
  destruct l as [|x l]; simpl; [lra|].
  eapply Rle_trans; [apply Rabs_pos | apply Rmax_l].
Qed.

Lemma fold_left_Rmax (l : list R) (a : R) :
  (0 <= a)%R -> fold_left Rmax (map Rabs l) a = Rmax a (peak_of l).
Proof.
  revert a; induction l as [|x l IH]; intros a Ha; simpl.
  - now rewrite Rmax_left.
  - rewrite IH.
    + now rewrite Rmax_assoc.
    + eapply Rle_trans; [exact Ha | apply Rmax_l].
Qed.

Lemma np_max_abs_Num (l : list R) :
  l <> [] -> np_max (map np_abs (map Num l)) = Ok (Num (peak_of l)).
Proof.
  destruct l as [|x l]; [congruence|]. intros _. simpl. f_equal.
  assert (H : forall a, fold_left np_maximum (map np_abs (map Num l)) (Num a)
                        = Num (fold_left Rmax (map Rabs l) a)).
  { induction l as [|y l IH]; intros a; simpl; [reflexivity|apply IH]. }
  rewrite H, fold_left_Rmax by apply Rabs_pos. reflexivity.
Qed.

Lemma peak_of_zero (l : list R) :
  peak_of l = 0%R -> Forall (fun x => x = 0%R) l.
Proof.
  induction l as [|x l IH]; simpl; intros H; constructor.
  - pose proof (Rmax_l (Rabs x) (peak_of l)).
    pose proof (Rabs_pos x).
    destruct (Req_dec_T x 0) as [E|N]; [exact E|].
    apply Rabs_pos_lt in N. lra.
  - apply IH. pose proof (Rmax_r (Rabs x) (peak_of l)).
    pose proof (peak_of_nonneg l). lra.
Qed.


Lemma peak_of_ge (l : list R) (x : R) : In x l -> (Rabs x <= peak_of l)%R.
Proof.
  induction l as [|y l IH]; simpl; intros [].
  - subst y. apply Rmax_l.
  - eapply Rle_trans; [now apply IH | apply Rmax_r].
Qed.

Lemma peak_of_pos (l : list R) (x : R) :
  In x l -> x <> 0%R -> (0 < peak_of l)%R.
Proof.
  intros Hin Hx. apply Rabs_pos_lt in Hx.
  pose proof (peak_of_ge _ _ Hin). lra.
Qed.

Lemma peak_of_nonempty (l : list R) : (0 < peak_of l)%R -> l <> [].
Proof.
  intros Hp ->. simpl in Hp. lra.
Qed.

Lemma map_nonempty {A B : Type} (f : A -> B) (l : list A) :
  l <> [] -> map f l <> [].
Proof.
  destruct l; simpl; congruence.
Qed.

(** A sample-wise map whose absolute value is a monotone function of the
    absolute value of the sample takes the peak to the image of the
    peak. *)
Lemma peak_of_map_monotone (g f : R -> R) (l : list R) :
  f 0%R = 0%R ->
  (forall a b, (0 <= a <= b)%R -> (f a <= f b)%R) ->
  (forall x, Rabs (g x) = f (Rabs x)) ->
  peak_of (map g l) = f (peak_of l).
Proof.
  intros H0 Hmono Habs. induction l as [|x l IH]; simpl; [now rewrite H0|].
  rewrite IH, Habs.
  pose proof (Rabs_pos x) as Hx. pose proof (peak_of_nonneg l) as Hp.
  destruct (Rle_dec (Rabs x) (peak_of l)) as [Hle|Hgt].
  - rewrite !Rmax_right; auto.
  - rewrite !Rmax_left; auto; try lra. apply Hmono. lra.
Qed.

Section BufferFacts.

Variable rnd : R -> R.
Hypothesis Hrnd : rounding rnd.


(** A buffer of finite samples times a finite factor that is not negative,
    when the product with the peak is finite. *)
Lemma map_np_mul_Num (s : R) (l : list R) :
  (0 <= s)%R -> (rnd (peak_of l * s) <= max_float)%R ->
  map (fun x => np_mul rnd x (Num s)) (map Num l) = map Num (scaled rnd s l).
Proof.
  intros Hs Hfin. unfold scaled. rewrite !map_map.
  apply map_ext_in. intros x Hx. simpl. apply (fl_finite rnd).
  rewrite (rnd_abs_scale Hrnd) by exact Hs.
  eapply Rle_trans; [|exact Hfin].
  apply (rnd_monotone Hrnd). pose proof (peak_of_ge _ _ Hx). nra.
Qed.

Lemma length_scaled (s : R) (l : list R) :
  List.length (scaled rnd s l) = List.length l.
Proof.
  unfold scaled. apply length_map.
Qed.

Lemma rescale_abs (p : R) (x : R) :
  (0 < p)%R ->
  Rabs (rnd (rnd (x / p) * double_095 rnd))
  = rnd (rnd (Rabs x / p) * double_095 rnd).
Proof.
  intros Hp. pose proof (double_095_range Hrnd) as Hc.
  rewrite (rnd_abs_scale Hrnd) by lra.
  unfold Rdiv. rewrite (rnd_abs_scale Hrnd); [reflexivity|].
  apply Rlt_le, Rinv_0_lt_compat, Hp.
Qed.

(** The peak normalisation of augment.py on a buffer of finite samples with
    a nonzero peak: every quotient and product is finite. *)
Lemma peak_rescale_Num (l : list R) :
  (0 < peak_of l)%R ->
  peak_rescale rnd (map Num l) = Ok (map Num (rescaled rnd l)).
Proof.
  intros Hp. pose proof (double_095_range Hrnd) as Hc.
  unfold peak_rescale. rewrite (np_max_abs_Num (@peak_of_nonempty l Hp)).
  cbn [bind]. f_equal. unfold rescaled. rewrite !map_map.
  apply map_ext_in. intros x Hx.
  rewrite np_div_Num by lra.
  assert (Hq : (Rabs (x / peak_of l) <= 1)%R).
  { unfold Rdiv. rewrite Rabs_mult, Rabs_inv, (Rabs_right (peak_of l)) by lra.
    pose proof (peak_of_ge _ _ Hx).
    apply (Rmult_le_reg_r (peak_of l)); [exact Hp|].
    rewrite Rmult_assoc, Rinv_l by lra. lra. }
  rewrite (fl_small Hrnd) by exact Hq. simpl.
  apply (fl_small Hrnd).
  pose proof (rnd_abs_le_1 Hrnd _ Hq) as Hq'.
  rewrite Rabs_mult, (Rabs_right (double_095 rnd)) by lra.
  pose proof (Rabs_pos (rnd (x / peak_of l))). nra.
Qed.

(** After it the peak is the double 0.95, exactly. *)
Lemma peak_of_rescaled (l : list R) :
  (0 < peak_of l)%R -> peak_of (rescaled rnd l) = double_095 rnd.
Proof.
  intros Hp. pose proof (double_095_range Hrnd) as Hc.
  unfold rescaled.
  rewrite (peak_of_map_monotone
             (fun x => rnd (rnd (x / peak_of l) * double_095 rnd)%R)
             (fun a => rnd (rnd (a / peak_of l) * double_095 rnd)%R)).
  - unfold Rdiv. rewrite Rinv_r by lra.
    rewrite (rnd_1 Hrnd), Rmult_1_l.
    unfold double_095. apply (rnd_idempotent Hrnd).
  - unfold Rdiv. rewrite Rmult_0_l, (rnd_0 Hrnd), Rmult_0_l. apply (rnd_0 Hrnd).
  - intros a b Hab. apply (rnd_monotone Hrnd).
    assert (H1 : (rnd (a / peak_of l) <= rnd (b / peak_of l))%R).
    { apply (rnd_monotone Hrnd). unfold Rdiv.
      apply Rmult_le_compat_r; [|lra].
      apply Rlt_le, Rinv_0_lt_compat, Hp. }
    nra.
  - intros x. now apply rescale_abs.
Qed.

Lemma length_rescaled (l : list R) :
  List.length (rescaled rnd l) = List.length l.
Proof.
  unfold rescaled. apply length_map.
Qed.

(** No sample of a rescaled buffer exceeds the double 0.95. *)
Lemma rescaled_bound (l : list R) (y : R) :
  (0 < peak_of l)%R -> In y (rescaled rnd l) ->
  (Rabs y <= double_095 rnd)%R.
Proof.
  intros Hp Hy. rewrite <- (peak_of_rescaled l Hp). now apply peak_of_ge.
Qed.

End BufferFacts.

(** ** normalize_audio *)

Lemma Rabs_bounds (x b : R) : (Rabs x <= b)%R -> (- b <= x <= b)%R.
Proof.
  intros H. unfold Rabs in H. destruct (Rcase_abs x); lra.
Qed.







(** The empty buffer has no peak: [np.max] raises. *)
Lemma normalize_audio_empty (rnd : R -> R) (target_level : R) :
  normalize_audio rnd [] target_level = Raise ValueError.
Proof.
  reflexivity.
Qed.

(** ** volume_perturbation *)

Lemma py_pow10_Ok (pow10 : R -> R) (y : R) :
  (Rabs (pow10 y) <= max_float)%R -> py_pow10 pow10 y = Ok (pow10 y).
Proof.
  intros H. unfold py_pow10. now destruct (Rle_dec (Rabs (pow10 y)) max_float).
Qed.

Lemma py_pow10_Raise (pow10 : R -> R) (y : R) :
  (max_float < Rabs (pow10 y))%R -> py_pow10 pow10 y = Raise OverflowError.
Proof.
  intros H. unfold py_pow10.
  destruct (Rle_dec (Rabs (pow10 y)) max_float); [lra|reflexivity].
Qed.

(** Python's [**] raises nothing but [OverflowError]. *)
Lemma py_pow10_cases (pow10 : R -> R) (y : R) :
  (py_pow10 pow10 y = Ok (pow10 y) /\ (Rabs (pow10 y) <= max_float)%R)
  \/ py_pow10 pow10 y = Raise OverflowError.
Proof.
  unfold py_pow10. destruct (Rle_dec (Rabs (pow10 y)) max_float); auto.
Qed.

Lemma volume_perturbation_Num (rnd pow10 : R -> R) (audio : list R)
    (gain_db gain_linear : R) :
  rounding rnd -> audio <> [] ->
  py_pow10 pow10 (rnd (gain_db / 20)%R) = Ok gain_linear ->
  (0 <= gain_linear)%R ->
  (rnd (peak_of audio * gain_linear) <= max_float)%R ->
  volume_perturbation rnd pow10 (map Num audio) gain_db
  = Ok (map Num (if Rlt_dec 1 (peak_of (scaled rnd gain_linear audio))
                 then rescaled rnd (scaled rnd gain_linear audio)
                 else scaled rnd gain_linear audio)).
Proof.
  intros Hrnd Hne Hpow HG Hfin. unfold volume_perturbation.
  rewrite Hpow. cbn [bind].
  rewrite (map_np_mul_Num Hrnd audio HG Hfin).
  assert (Hne' : scaled rnd gain_linear audio <> [])
    by now apply map_nonempty.
  rewrite (np_max_abs_Num Hne'). cbn [bind]. rewrite np_gt_Num.
  destruct (Rlt_dec 1 (peak_of (scaled rnd gain_linear audio))) as [Hp|_];
    [|reflexivity].
  apply (peak_rescale_Num Hrnd). lra.
Qed.


Lemma exact_pow10_0 : py_pow10 exact_pow10 (exact (0 / 20)%R) = Ok 1%R.
Proof.
  assert (E : exact_pow10 (exact (0 / 20)%R) = 1%R).
  { unfold exact_pow10, exact. replace (0 / 20)%R with 0%R by lra.
    apply Rpower_O. lra. }
  rewrite <- E. apply py_pow10_Ok. rewrite E, Rabs_R1. apply max_float_ge_1.
Qed.



(** [10 ** 310] is beyond the largest double. *)
Lemma exact_pow10_310 : (max_float < exact_pow10 310)%R.
Proof.
  unfold exact_pow10.
  change 310%R with (IZR (Z.of_nat 310)). rewrite <- INR_IZR_INZ.
  rewrite Rpower_pow by lra. rewrite pow_IZR.
  unfold max_float. apply IZR_lt, Z.ltb_lt. vm_compute. reflexivity.
Qed.


(** The empty buffer has no peak: [np.max] raises, when the factor is in
    range. *)
Lemma volume_perturbation_empty (rnd pow10 : R -> R) (gain_db gain_linear : R) :
  py_pow10 pow10 (rnd (gain_db / 20)%R) = Ok gain_linear ->
  volume_perturbation rnd pow10 [] gain_db = Raise ValueError.
Proof.
  intros H. unfold volume_perturbation. now rewrite H.
Qed.

(** ** Fitting the noise to the signal length *)

Lemma length_np_tile {A : Type} (a : list A) (r : nat) :
  List.length (np_tile a r) = (r * List.length a)%nat.
Proof.
  unfold np_tile. induction r as [|r IH]; simpl; [reflexivity|].
  now rewrite length_app, IH.
Qed.

Lemma nth_np_tile {A : Type} (a : list A) (r i : nat) (d : A) :
  (i < r * List.length a)%nat ->
  nth i (np_tile a r) d = nth (i mod List.length a) a d.
Proof.
  unfold np_tile. revert i; induction r as [|r IH]; intros i Hi; simpl in *.
  - lia.
  - destruct (Nat.lt_ge_cases i (List.length a)) as [Hlt|Hge].
    + rewrite app_nth1 by exact Hlt. now rewrite Nat.mod_small.
    + rewrite app_nth2 by exact Hge. rewrite IH by lia.
      f_equal.
      replace i with ((i - List.length a) + 1 * List.length a)%nat at 2 by lia.
      now rewrite Nat.Div0.mod_add.
Qed.

Lemma ceil_len_ratio_covers (la ln : nat) :
  ln <> 0%nat ->
  exists r, ceil_len_ratio la ln = Ok r /\ (la <= r * ln)%nat.
Proof.
  intros Hln. unfold ceil_len_ratio.
  destruct (Nat.eqb_spec ln 0) as [|_]; [contradiction|].
  eexists. split; [reflexivity|].
  pose proof (Nat.div_mod_eq (la + ln - 1) ln) as E.
  pose proof (Nat.mod_upper_bound (la + ln - 1) ln Hln) as B.
  nia.
Qed.

Lemma nth_map_seq {A : Type} (f : nat -> A) (n i : nat) (d : A) :
  (i < n)%nat -> nth i (map f (seq 0 n)) d = f i.
Proof.
  intros Hi.
  rewrite (nth_indep _ d (f 0%nat)) by (rewrite length_map, length_seq; lia).
  rewrite (map_nth f). now rewrite seq_nth by lia.
Qed.

(** Tile-then-truncate is the periodic repetition of the noise cut to the
    length of the signal: sample [i] is noise sample [i mod len(noise)]. *)
Lemma fit_noise_periodic (audio noise_audio : list npfloat) :
  noise_audio <> [] ->
  fit_noise audio noise_audio
  = Ok (map (fun i => nth (i mod List.length noise_audio) noise_audio (Num 0))
            (seq 0 (List.length audio))).
Proof.
  intros Hne.
  assert (Hln : List.length noise_audio <> 0%nat)
    by (destruct noise_audio; simpl; congruence).
  unfold fit_noise.
  destruct (Nat.ltb_spec (List.length noise_audio) (List.length audio))
    as [Hlt|Hge].
  - destruct (ceil_len_ratio_covers (List.length audio) Hln) as [r [-> Hr]].
    cbn [bind]. f_equal.
    apply nth_ext with (d := Num 0) (d' := Num 0).
    + rewrite length_firstn, length_np_tile, length_map, length_seq. lia.
    + intros i Hi.
      rewrite length_firstn, length_np_tile in Hi.
      rewrite nth_firstn.
      destruct (Nat.ltb_spec i (List.length audio)) as [_|]; [|lia].
      rewrite nth_np_tile by lia.
      rewrite nth_map_seq by lia. reflexivity.
  - cbn [bind]. f_equal.
    apply nth_ext with (d := Num 0) (d' := Num 0).
    + rewrite length_firstn, length_map, length_seq. lia.
    + intros i Hi. rewrite length_firstn in Hi.
      rewrite nth_firstn.
      destruct (Nat.ltb_spec i (List.length audio)) as [_|]; [|lia].
      rewrite nth_map_seq by lia. now rewrite Nat.mod_small by lia.
Qed.

Lemma fit_noise_empty_noise (x : npfloat) (audio : list npfloat) :
  fit_noise (x :: audio) [] = Raise ZeroDivisionError.
Proof.
  reflexivity.
Qed.

Lemma fit_noise_Num (audio noise : list R) :
  noise <> [] ->
  fit_noise (map Num audio) (map Num noise)
  = Ok (map Num (tiled noise (List.length audio))).
Proof.
  intros Hne. rewrite fit_noise_periodic
    by (destruct noise; simpl; congruence).
  unfold tiled. rewrite !length_map, map_map. f_equal.
  apply map_ext. intros i. apply (map_nth Num).
Qed.

Lemma length_tiled (noise : list R) (len : nat) :
  List.length (tiled noise len) = len.
Proof.
  unfold tiled. now rewrite length_map, length_seq.
Qed.

(** ** add_background_noise *)

Lemma length_mix (rnd : R -> R) (a b : list R) :
  List.length a = List.length b -> List.length (mix rnd a b) = List.length a.
Proof.
  revert b; induction a as [|x a IH]; intros [|y b] H; simpl in *;
    try reflexivity; try discriminate.
  f_equal. apply IH. now injection H.
Qed.

Lemma length_arr_add (rnd : R -> R) (a b : list npfloat) :
  List.length a = List.length b ->
  List.length (arr_add rnd a b) = List.length a.
Proof.
  revert b; induction a as [|x a IH]; intros [|y b] H; simpl in *;
    try reflexivity; try discriminate.
  f_equal. apply IH. now injection H.
Qed.

(** The sum of two buffers of finite samples, when no sum is beyond the
    largest double. *)
Lemma arr_add_Num (rnd : R -> R) (a b : list R) :
  (peak_of (mix rnd a b) <= max_float)%R ->
  arr_add rnd (map Num a) (map Num b) = map Num (mix rnd a b).
Proof.
  revert b; induction a as [|x a IH]; intros [|y b] H; simpl in *;
    try reflexivity.
  rewrite IH.
  - f_equal. apply fl_finite.
    eapply Rle_trans; [apply Rmax_l | exact H].
  - eapply Rle_trans; [apply Rmax_r | exact H].
Qed.

Lemma Rsum_squares_nonneg (l : list R) :
  (0 <= Rsum (map (fun x => x * x) l))%R.
Proof.
  induction l as [|x l IH]; simpl; [lra|]. nra.
Qed.

Lemma Rsum_squares_zero (l : list R) :
  Rsum (map (fun x => x * x)%R l) = 0%R -> Forall (fun x => x = 0%R) l.
Proof.
  induction l as [|x l IH]; simpl; intros H; constructor.
  - pose proof (Rsum_squares_nonneg l). nra.
  - apply IH. pose proof (Rsum_squares_nonneg l). nra.
Qed.

Lemma power_zero_inv (l : list R) :
  l <> [] -> power l = 0%R -> Forall (fun x => x = 0%R) l.
Proof.
  intros Hne H. apply Rsum_squares_zero.
  unfold power in H. pose proof (INR_length_nonzero Hne) as Hn.
  apply (Rmult_eq_compat_r (INR (List.length l))) in H.
  unfold Rdiv in H. rewrite Rmult_assoc, Rinv_l, Rmult_1_r, Rmult_0_l in H;
    auto.
Qed.

Lemma power_zeros (l : list R) :
  Forall (fun x => x = 0%R) l -> power l = 0%R.
Proof.
  intros H. unfold power.
  assert (E : Rsum (map (fun x => x * x)%R l) = 0%R).
  { induction H as [|x l -> _ IH]; simpl; [reflexivity|]. rewrite IH. lra. }
  rewrite E. unfold Rdiv. ring.
Qed.

(** Samples that are not finite stay so. *)
Lemma not_finite_cases (x : npfloat) :
  ~ finite x -> x = PInf \/ x = NInf \/ x = NaN.
Proof.
  destruct x; simpl; auto. intros H. now exfalso.
Qed.

Lemma np_add_not_finite (rnd : R -> R) (a : R) (z : npfloat) :
  ~ finite z -> np_add rnd (Num a) z = z.
Proof.
  intros H. destruct (not_finite_cases _ H) as [->|[->| ->]]; reflexivity.
Qed.

Lemma arr_add_not_finite (rnd : R -> R) (a : list R) (zs : list npfloat) :
  List.length zs = List.length a -> Forall (fun z => ~ finite z) zs ->
  arr_add rnd (map Num a) zs = zs.
Proof.
  revert zs; induction a as [|x a IH]; intros [|z zs] Hlen Hz;
    cbn [map arr_add List.length] in *; try reflexivity; try discriminate.
  inversion Hz; subst. rewrite np_add_not_finite by assumption.
  f_equal. apply IH; [now injection Hlen | assumption].
Qed.

Lemma np_maximum_not_finite (zs : list npfloat) (m : npfloat) :
  m = PInf \/ m = NaN ->
  Forall (fun z => z = PInf \/ z = NaN) zs ->
  fold_left np_maximum zs m = PInf \/ fold_left np_maximum zs m = NaN.
Proof.
  revert m; induction zs as [|z zs IH]; intros m Hm Hz; simpl; [exact Hm|].
  inversion Hz as [|? ? Hz1 Hz2]; subst. apply IH; [|exact Hz2].
  destruct Hm as [-> | ->], Hz1 as [-> | ->]; simpl; auto.
Qed.

Lemma rescale_by_not_finite (rnd : R -> R) (peak : npfloat) (c : R)
    (zs : list npfloat) :
  peak = PInf \/ peak = NaN -> Forall (fun z => ~ finite z) zs ->
  map (fun x => np_mul rnd (np_div rnd x peak) (Num c)) zs
  = repeat NaN (List.length zs).
Proof.
  intros Hpk Hz. induction Hz as [|y l Hy _ IH]; simpl; [reflexivity|].
  rewrite IH. f_equal.
  destruct (not_finite_cases _ Hy) as [->|[->| ->]], Hpk as [-> | ->];
    reflexivity.
Qed.

(** The peak normalisation of a buffer without a finite sample gives
    [NaN] throughout. *)
Lemma peak_rescale_not_finite (rnd : R -> R) (zs : list npfloat) :
  zs <> [] -> Forall (fun z => ~ finite z) zs ->
  peak_rescale rnd zs = Ok (repeat NaN (List.length zs)).
Proof.
  intros Hne Hz. unfold peak_rescale.
  assert (Habs : Forall (fun z => z = PInf \/ z = NaN) (map np_abs zs)).
  { apply Forall_forall. intros y Hy. apply in_map_iff in Hy as (z & <- & Hin).
    rewrite Forall_forall in Hz.
    destruct (not_finite_cases _ (Hz z Hin)) as [->|[->| ->]]; simpl; auto. }
  assert (Hpk : exists peak,
             np_max (map np_abs zs) = Ok peak /\ (peak = PInf \/ peak = NaN)).
  { destruct zs as [|z zs]; [congruence|].
    cbn [map np_max] in *. inversion Habs as [|? ? Hm Hrest]; subst.
    eexists. split; [reflexivity|]. now apply np_maximum_not_finite. }
  destruct Hpk as (peak & -> & Hpk). cbn [bind]. f_equal.
  now apply rescale_by_not_finite.
Qed.

(** A scale factor computed with a zero noise power is an infinity or
    [NaN], whatever the signal power. *)
Lemma np_sqrt_div_zero (rnd : R -> R) (sp : npfloat) :
  np_sqrt rnd (np_div rnd sp (Num 0)) = PInf
  \/ np_sqrt rnd (np_div rnd sp (Num 0)) = NaN.
Proof.
  destruct sp as [a| | |]; simpl;
    destruct (Req_dec_T 0 0) as [_|N]; try contradiction; simpl; auto.
  destruct (Rsign a); simpl; auto.
Qed.

Lemma np_mul_not_finite (rnd : R -> R) (s : npfloat) (y : R) :
  s = PInf \/ s = NaN -> ~ finite (np_mul rnd s (Num y)).
Proof.
  intros [-> | ->]; simpl; [|tauto].
  destruct (Rsign y); simpl; tauto.
Qed.

Lemma snr_linear_cases (rnd pow10 : R -> R) (snr_db : R) :
  (exists snr_linear_value, snr_linear rnd pow10 snr_db = Ok snr_linear_value)
  \/ snr_linear rnd pow10 snr_db = Raise OverflowError.
Proof.
  unfold snr_linear.
  destruct (py_pow10_cases pow10 (rnd (snr_db / 10)%R)) as [[E _]|E]; eauto.
Qed.

Lemma value_zeros (rnd : R -> R) (s : summation) :
  rounding rnd -> Forall (fun x => x = Num 0) (terms s) -> value rnd s = Num 0.
Proof.
  intros Hrnd. induction s as [x|s IHs t IHt]; simpl; intros H.
  - now inversion H.
  - apply Forall_app in H as [Hs Ht]. rewrite IHs, IHt by assumption.
    simpl. rewrite Rplus_0_l. now apply fl_0.
Qed.

(** The mean square of a buffer of zeros is computed as zero, in whatever
    order the squares are added. *)
Lemma np_mean_square_zeros (rnd : R -> R)
    (np_add_reduce : list npfloat -> npfloat) (l : list R) :
  rounding rnd -> pairwise_sum rnd np_add_reduce ->
  l <> [] -> Forall (fun x => x = 0%R) l ->
  np_mean rnd np_add_reduce (np_square rnd (map Num l)) = Num 0.
Proof.
  intros Hrnd Hsum Hne Hz.
  assert (Hsq : Forall (fun x => x = Num 0) (np_square rnd (map Num l))).
  { unfold np_square. rewrite map_map. apply Forall_forall.
    intros y Hy. apply in_map_iff in Hy as (x & <- & Hx).
    rewrite Forall_forall in Hz. rewrite (Hz x Hx). simpl.
    rewrite Rmult_0_l. now apply fl_0. }
  assert (Hne' : np_square rnd (map Num l) <> []).
  { unfold np_square. now apply map_nonempty, map_nonempty. }
  unfold np_mean, np_sum.
  destruct (Hsum _ Hne') as (s & Hperm & E).
  destruct (np_square rnd (map Num l)) as [|y ys] eqn:El; [congruence|].
  rewrite E, (value_zeros s Hrnd).
  2:{ apply Forall_forall. intros x Hx.
      rewrite Forall_forall in Hsq. apply Hsq.
      now apply (Permutation_in _ Hperm). }
  assert (Hn : (1 <= rnd (INR (List.length (y :: ys))))%R).
  { rewrite <- (rnd_1 Hrnd). apply (rnd_monotone Hrnd).
    change 1%R with (INR 1). apply le_INR. simpl. lia. }
  rewrite np_div_Num by lra.
  unfold Rdiv. rewrite Rmult_0_l. now apply fl_0.
Qed.

(** C3 (the behaviour of the code).  When the noise power, the mean square
    of the fitted noise as the code computes it, is zero,
    [add_background_noise] does not guard the division: if
    [10 ** (snr_db / 10)] is a double it raises nothing and returns a buffer
    of [NaN] samples as long as the signal, and if it is not, the
    [OverflowError] of the power is all that is raised.  The noise power is
    zero, in particular, whenever every sample of the fitted noise is
    zero. *)
Theorem add_background_noise_zero_noise_power
    (rnd pow10 : R -> R) (np_add_reduce : list npfloat -> npfloat)
    (audio noise_audio : list R) (snr_db : R) :
  rounding rnd -> audio <> [] -> noise_audio <> [] ->
  let fitted := tiled noise_audio (List.length audio) in
  (np_mean rnd np_add_reduce (np_square rnd (map Num fitted)) = Num 0 ->
   match snr_linear rnd pow10 snr_db with
   | Ok _ =>
       add_background_noise rnd pow10 np_add_reduce
         (map Num audio) (map Num noise_audio) snr_db
       = Ok (repeat NaN (List.length audio))
   | Raise e =>
       e = OverflowError
       /\ add_background_noise rnd pow10 np_add_reduce
            (map Num audio) (map Num noise_audio) snr_db
          = Raise e
   end)
  /\ (pairwise_sum rnd np_add_reduce -> power fitted = 0%R ->
      np_mean rnd np_add_reduce (np_square rnd (map Num fitted)) = Num 0).
Proof.
  intros Hrnd Ha Hn fitted.
  assert (Hlen : List.length fitted = List.length audio)
    by apply length_tiled.
  assert (Hf : fitted <> []).
  { intros E. rewrite E in Hlen. destruct audio; simpl in Hlen; congruence. }
  split.
  - intros Hp.
    unfold add_background_noise. rewrite (fit_noise_Num audio Hn).
    cbn [bind]. fold fitted. unfold noise_scale. rewrite Hp.
    destruct (snr_linear_cases rnd pow10 snr_db) as [[L E]|E]; rewrite E;
      cbn [bind]; [|now split].
    assert (Hzero : np_mul rnd (Num 0) (Num L) = Num 0).
    { simpl. rewrite Rmult_0_l. now apply fl_0. }
    rewrite Hzero.
    set (scale := np_sqrt rnd (np_div rnd _ (Num 0))).
    assert (Hscale : scale = PInf \/ scale = NaN) by apply np_sqrt_div_zero.
    assert (Hz : Forall (fun z => ~ finite z)
                        (map (np_mul rnd scale) (map Num fitted))).
    { rewrite map_map. apply Forall_forall. intros z Hz.
      apply in_map_iff in Hz as (y & <- & _).
      now apply np_mul_not_finite. }
    rewrite arr_add_not_finite; [|now rewrite !length_map|exact Hz].
    rewrite peak_rescale_not_finite; [|now apply map_nonempty, map_nonempty
                                      |exact Hz].
    now rewrite !length_map, Hlen.
  - intros Hsum Hpow. apply np_mean_square_zeros; auto.
    now apply power_zero_inv.
Qed.



(** Adding from left to right is one of the orders of summation. *)
Lemma sequential_sum_pairwise (rnd : R -> R) :
  pairwise_sum rnd (sequential_sum rnd).
Proof.
  intros a Hne. destruct a as [|x xs]; [congruence|]. clear Hne.
  unfold sequential_sum.
  assert (H : forall s, exists t,
             Permutation (terms t) (terms s ++ xs)
             /\ fold_left (np_add rnd) xs (value rnd s) = value rnd t).
  { induction xs as [|y ys IH]; intros s.
    - exists s. rewrite app_nil_r. split; reflexivity.
    - destruct (IH (Plus s (Term y))) as (t & Hp & E).
      exists t. split; [|exact E].
      rewrite Hp. simpl. rewrite <- app_assoc. reflexivity. }
  destruct (H (Term x)) as (t & Hp & E). exists t. split; assumption.
Qed.

(** [10 ** 1.5] is a double. *)
Lemma exact_snr_linear_15 :
  exists snr_linear_value,
    snr_linear exact exact_pow10 15 = Ok snr_linear_value
    /\ (1 <= snr_linear_value <= 100)%R.
Proof.
  unfold snr_linear. replace (exact (15 / 10)%R) with (15 / 10)%R by reflexivity.
  assert (H1 : (1 <= exact_pow10 (15 / 10) <= 100)%R).
  { unfold exact_pow10. split.
    - rewrite <- (Rpower_O 10) by lra. apply Rle_Rpower; lra.
    - replace 100%R with (Rpower 10 2).
      + apply Rle_Rpower; lra.
      + change 2%R with (INR 2). rewrite Rpower_pow by lra. simpl. lra. }
  exists (exact_pow10 (15 / 10)). split; [|exact H1].
  apply py_pow10_Ok. rewrite Rabs_right by lra.
  apply Rle_trans with (IZR 100); [lra|].
  unfold max_float. apply IZR_le, Z.leb_le. vm_compute. reflexivity.
Qed.

Lemma add_background_noise_zero_noise_power_witness :
  add_background_noise exact exact_pow10 (sequential_sum exact)
    (map Num [1]%R) (map Num [0]%R) 15
  = Ok [NaN].
Proof.
  destruct exact_snr_linear_15 as (L & E & _).
  pose proof (@add_background_noise_zero_noise_power exact exact_pow10
                (sequential_sum exact) [1]%R [0]%R 15%R rounding_exact) as H.
  destruct H as [H1 H2]; [discriminate|discriminate|].
  rewrite E in H1. apply H1. apply H2.
  - apply sequential_sum_pairwise.
  - apply power_zeros. repeat constructor.
Defined.

Local Open Scope R_scope.



Lemma Rpower_10_pos (y : R) : (0 < Rpower 10 y)%R.
Proof.
  unfold Rpower. apply exp_pos.
Qed.






(** *** The computation without rounding error *)
















(** ** augment_audio *)

Lemma peak_rescale_nonempty (rnd : R -> R) (x : npfloat) (l : list npfloat) :
  exists out, peak_rescale rnd (x :: l) = Ok out.
Proof.
  unfold peak_rescale. simpl. eexists. reflexivity.
Qed.

Lemma peak_rescale_length (rnd : R -> R) (a out : list npfloat) :
  peak_rescale rnd a = Ok out -> List.length out = List.length a.
Proof.
  unfold peak_rescale. destruct (np_max (map np_abs a)) as [peak|e];
    cbn [bind]; [|discriminate].
  intros H. injection H as <-. apply length_map.
Qed.

Lemma volume_perturbation_nonempty (rnd pow10 : R -> R) (x : npfloat)
    (l : list npfloat) (gain_db : R) :
  is_ok (py_pow10 pow10 (rnd (gain_db / 20))) = true ->
  exists out, volume_perturbation rnd pow10 (x :: l) gain_db = Ok out.
Proof.
  intros H. unfold volume_perturbation.
  destruct (py_pow10 pow10 (rnd (gain_db / 20))) as [g|e]; [|discriminate].
  cbn [map np_max bind].
  destruct (np_gt _ _); [apply peak_rescale_nonempty | eauto].
Qed.

Lemma white_noise_mixture_nonempty (rnd : R -> R) (normal_draw : Z -> nat -> R)
    (x : npfloat) (l : list npfloat) (noise_level : R) (g : RngState) :
  exists out, white_noise_mixture rnd normal_draw (x :: l) noise_level g = Ok out.
Proof.
  unfold white_noise_mixture. cbn [List.length seq map arr_add].
  apply peak_rescale_nonempty.
Qed.

(** [add_white_noise] with a deviation that is not negative: the mixture
    from the current state of numpy's generator, which advances by one draw
    per sample. *)
Lemma add_white_noise_run (rnd : R -> R) (normal_draw : Z -> nat -> R)
    (audio : list npfloat) (noise_level : R) (w : World) :
  0 <= noise_level ->
  add_white_noise rnd normal_draw audio noise_level w
  = (white_noise_mixture rnd normal_draw audio noise_level (np_random w),
     mkWorld (py_random w)
             (mkRng (rng_seed (np_random w))
                    (rng_pos (np_random w) + List.length audio))
             (files w)).
Proof.
  intros H. unfold add_white_noise, bindM, np_random_normal, lift.
  destruct (Rlt_dec noise_level 0) as [Hneg|_]; [lra|]. reflexivity.
Qed.

Lemma add_white_noise_negative (rnd : R -> R) (normal_draw : Z -> nat -> R)
    (audio : list npfloat) (noise_level : R) (w : World) :
  noise_level < 0 ->
  add_white_noise rnd normal_draw audio noise_level w = (Raise ValueError, w).
Proof.
  intros H. unfold add_white_noise, bindM, np_random_normal.
  destruct (Rlt_dec noise_level 0) as [_|N]; [reflexivity|contradiction].
Qed.

Lemma bindM_run {A B : Type} (m : M A) (k : A -> M B) (w w' : World) (a : A) :
  m w = (Ok a, w') -> bindM m k w = k a w'.
Proof.
  intros H. unfold bindM. now rewrite H.
Qed.

Lemma bindM_assoc {A B C : Type} (m : M A) (f : A -> M B) (k : B -> M C) (w : World) :
  bindM (bindM m f) k w = bindM m (fun a => bindM (f a) k) w.
Proof.
  unfold bindM. destruct (m w) as [[a|e] w']; reflexivity.
Qed.

Section AugmentFacts.

Variable rnd : R -> R.
Variable pow10 : R -> R.
Variable normal_draw : Z -> nat -> R.
Variable time_stretch : list npfloat -> R -> result (list npfloat).
Variable path_div : string -> string -> string.

Lemma speed_variants_run (audio : list npfloat) (output_dir base_name : string)
    (acc : list (string * string)) (w : World) :
  (forall speed, In speed (speed_factors rnd) ->
     is_ok (speed_perturbation time_stretch audio (lit_val speed)) = true) ->
  exists a1 a2,
    time_stretch audio (rnd (9 / 10)) = Ok a1
    /\ time_stretch audio (rnd (11 / 10)) = Ok a2
    /\ speed_variants rnd time_stretch path_div audio output_dir base_name acc w
       = (Ok (acc ++ [(path_div output_dir (base_name ++ "_speed0.9.wav"),
                       "speed_0.9"%string);
                      (path_div output_dir (base_name ++ "_speed1.1.wav"),
                       "speed_1.1"%string)]),
          mkWorld (py_random w) (np_random w)
            (files w ++ [(path_div output_dir (base_name ++ "_speed0.9.wav"), a1);
                         (path_div output_dir (base_name ++ "_speed1.1.wav"), a2)])).
Proof.
  intros H.
  pose proof (H _ (or_introl eq_refl)) as H1.
  pose proof (H _ (or_intror (or_introl eq_refl))) as H2.
  cbn [lit_val] in H1, H2. unfold speed_perturbation in H1, H2.
  destruct (time_stretch audio (rnd (9 / 10))) as [a1|] eqn:E1;
    [|discriminate].
  destruct (time_stretch audio (rnd (11 / 10))) as [a2|] eqn:E2;
    [|discriminate].
  exists a1, a2. split; [reflexivity|]. split; [reflexivity|].
  unfold speed_variants, speed_factors, speed_perturbation, foldM, bindM, lift,
    ret, sf_write.
  cbn [lit_val lit_str]. rewrite E1, E2.
  cbn [py_random np_random files]. now rewrite <- !app_assoc.
Qed.

Lemma noise_variants_run (x : npfloat) (audio : list npfloat)
    (output_dir base_name : string)
    (acc : list (string * string)) (w : World) :
  rounding rnd ->
  let g := np_random w in
  let g1 := mkRng (rng_seed g) (rng_pos g + List.length (x :: audio)) in
  let g2 := mkRng (rng_seed g)
                  (rng_pos g + List.length (x :: audio)
                   + List.length (x :: audio)) in
  exists n1 n2,
    white_noise_mixture rnd normal_draw (x :: audio) (rnd (3 / 1000)) g = Ok n1
    /\ white_noise_mixture rnd normal_draw (x :: audio) (rnd (7 / 1000)) g1
       = Ok n2
    /\ noise_variants rnd normal_draw path_div (x :: audio) output_dir base_name
         acc w
       = (Ok (acc ++ [(path_div output_dir (base_name ++ "_noise0.003.wav"),
                       "noise_0.003"%string);
                      (path_div output_dir (base_name ++ "_noise0.007.wav"),
                       "noise_0.007"%string)]),
          mkWorld (py_random w) g2
            (files w ++ [(path_div output_dir (base_name ++ "_noise0.003.wav"), n1);
                         (path_div output_dir (base_name ++ "_noise0.007.wav"), n2)])).
Proof.
  intros Hrnd g g1 g2. subst g g1 g2.
  assert (H3 : 0 <= rnd (3 / 1000)) by (apply (rnd_nonneg Hrnd); lra).
  assert (H7 : 0 <= rnd (7 / 1000)) by (apply (rnd_nonneg Hrnd); lra).
  destruct (white_noise_mixture_nonempty rnd normal_draw x audio
              (rnd (3 / 1000)) (np_random w)) as [n1 E1].
  destruct (white_noise_mixture_nonempty rnd normal_draw x audio
              (rnd (7 / 1000))
              (mkRng (rng_seed (np_random w))
                     (rng_pos (np_random w) + List.length (x :: audio))))
    as [n2 E2].
  exists n1, n2. split; [exact E1|]. split; [exact E2|].
  unfold noise_variants, noise_levels. cbn [foldM lit_val lit_str].
  rewrite bindM_assoc.
  erewrite bindM_run
    by (rewrite (add_white_noise_run rnd normal_draw (x :: audio) w H3);
        rewrite E1; reflexivity).
  repeat (rewrite bindM_assoc || (erewrite bindM_run by reflexivity)).
  erewrite bindM_run
    by (rewrite add_white_noise_run by exact H7;
        cbn [py_random np_random files rng_seed rng_pos];
        rewrite E2; reflexivity).
  repeat (rewrite bindM_assoc || (erewrite bindM_run by reflexivity)).
  unfold ret. cbn [py_random np_random files]. now rewrite <- !app_assoc.
Qed.

Lemma volume_variants_run (x : npfloat) (audio : list npfloat)
    (output_dir base_name : string)
    (acc : list (string * string)) (w : World) :
  (forall gain, In gain gains ->
     is_ok (py_pow10 pow10 (rnd (lit_val gain / 20))) = true) ->
  exists v1 v2,
    volume_perturbation rnd pow10 (x :: audio) (-3) = Ok v1
    /\ volume_perturbation rnd pow10 (x :: audio) 3 = Ok v2
    /\ volume_variants rnd pow10 path_div (x :: audio) output_dir base_name acc w
       = (Ok (acc ++ [(path_div output_dir (base_name ++ "_vol-3db.wav"),
                       "volume_-3db"%string);
                      (path_div output_dir (base_name ++ "_vol3db.wav"),
                       "volume_3db"%string)]),
          mkWorld (py_random w) (np_random w)
            (files w ++ [(path_div output_dir (base_name ++ "_vol-3db.wav"), v1);
                         (path_div output_dir (base_name ++ "_vol3db.wav"), v2)])).
Proof.
  intros H.
  pose proof (H _ (or_introl eq_refl)) as H1.
  pose proof (H _ (or_intror (or_introl eq_refl))) as H2.
  cbn [lit_val] in H1, H2.
  destruct (volume_perturbation_nonempty rnd pow10 x audio (-3) H1) as [v1 E1].
  destruct (volume_perturbation_nonempty rnd pow10 x audio 3 H2) as [v2 E2].
  exists v1, v2. split; [exact E1|]. split; [exact E2|].
  unfold volume_variants, gains, foldM, bindM, lift, ret, sf_write.
  cbn [lit_val lit_str]. rewrite E1, E2.
  cbn [py_random np_random files]. now rewrite <- !app_assoc.
Qed.

End AugmentFacts.

Lemma mapM_length {A B : Type} (f : A -> result B) (l : list A) (out : list B) :
  mapM f l = Ok out -> List.length out = List.length l.
Proof.
  revert out; induction l as [|a l IH]; intros out H; simpl in H.
  - now injection H as <-.
  - destruct (f a) as [b|e]; cbn [bind] in H; [|discriminate].
    destruct (mapM f l) as [bs|e]; cbn [bind] in H; [|discriminate].
    injection H as <-. simpl. f_equal. now apply IH.
Qed.

(** A run of [augment_audio] on a loaded buffer that is not empty: every
    transform of the catalogue returns, the entries are the catalogue's,
    and each file holds the buffer its entry stands for. *)
Lemma augment_audio_run
    (rnd pow10 : R -> R) (normal_draw : Z -> nat -> R)
    (time_stretch : list npfloat -> R -> result (list npfloat))
    (load : string -> Z -> result (list npfloat)) (stem : string -> string)
    (path_div : string -> string -> string)
    (self : AudioAugmenter) (audio_path output_dir : string)
    (techniques : list string) (w : World) (x : npfloat) (audio : list npfloat) :
  rounding rnd ->
  load audio_path (sr self) = Ok (x :: audio) ->
  (requested "speed" techniques = true ->
   forall speed, In speed (speed_factors rnd) ->
     is_ok (speed_perturbation time_stretch (x :: audio) (lit_val speed)) = true) ->
  (requested "volume" techniques = true ->
   forall gain, In gain gains ->
     is_ok (py_pow10 pow10 (rnd (lit_val gain / 20))) = true) ->
  let variants :=
    catalogue_variants path_div output_dir (stem audio_path) techniques in
  exists written w',
    mapM (fun r => r)
         (catalogue_contents rnd pow10 normal_draw time_stretch (x :: audio)
            (np_random w) techniques)
    = Ok written
    /\ augment_audio rnd pow10 normal_draw time_stretch load stem path_div self
         audio_path output_dir techniques w
       = (Ok variants, w')
    /\ files w' = files w ++ combine (map fst variants) written
    /\ py_random w' = py_random w.
Proof.
  intros Hrnd Hload Hspeed Hvol variants.
  unfold variants, augment_audio, catalogue_variants, catalogue_contents.
  erewrite bindM_run by (unfold lift; rewrite Hload; reflexivity).
  erewrite bindM_run by reflexivity.
  destruct (requested "speed" techniques) eqn:Es;
    destruct (requested "noise" techniques) eqn:En;
    destruct (requested "volume" techniques) eqn:Ev;
    cbv iota;
    repeat
      match goal with
      | |- context [bindM (speed_variants ?r ?ts ?pd ?a ?d ?b ?acc) _ ?w1] =>
          destruct (@speed_variants_run r ts pd a d b acc w1 (Hspeed eq_refl))
            as (? & ? & ?E & ?E & ?R);
          erewrite bindM_run by eassumption
      | |- context [bindM (noise_variants ?r ?nd ?pd (?y :: ?a) ?d ?b ?acc) _ ?w1] =>
          destruct (@noise_variants_run r nd pd y a d b acc w1 Hrnd)
            as (? & ? & ?E & ?E & ?R);
          erewrite bindM_run by eassumption
      | |- context [bindM (volume_variants ?r ?p ?pd (?y :: ?a) ?d ?b ?acc) _ ?w1] =>
          destruct (@volume_variants_run r p pd y a d b acc w1 (Hvol eq_refl))
            as (? & ? & ?E & ?E & ?R);
          erewrite bindM_run by eassumption
      | |- context [bindM (ret ?a) ?k ?w1] =>
          change (bindM (ret a) k w1) with (k a w1); cbv beta
      end;
    cbn [py_random np_random files rng_seed rng_pos] in *;
    repeat match goal with
           | H : _ = Ok _ |- _ => rewrite H; clear H
           end;
    unfold ret; do 2 eexists;
    (split; [cbn [mapM bind app]; reflexivity|]);
    (split; [cbn [app]; rewrite <- ?app_assoc; reflexivity|]);
    cbn [py_random np_random files map fst snd app combine];
    rewrite <- ?app_assoc; split; reflexivity.
Qed.

(** C8 (as amended).  For a loaded buffer that is not empty, a time-stretch
    routine that does not raise on it when speed is requested, and gains
    whose factors are doubles when volume is requested, the planner returns
    the original plus the two variants of each requested catalogue
    technique, in catalogue order and under the catalogue tags, and
    produces nothing for a technique that is not requested; it writes one
    file per returned entry, at the entry's path, holding the buffer the
    entry stands for: the loaded buffer, its time stretch at rates 0.9 and
    1.1, its white-noise variants at deviations 0.003 and 0.007, its volume
    variants at -3 and +3 dB.  With speed and noise requested these are
    five entries. *)
Theorem augment_audio_catalogue
    (rnd pow10 : R -> R) (normal_draw : Z -> nat -> R)
    (time_stretch : list npfloat -> R -> result (list npfloat))
    (load : string -> Z -> result (list npfloat)) (stem : string -> string)
    (path_div : string -> string -> string)
    (self : AudioAugmenter) (audio_path output_dir : string)
    (techniques : list string) (w : World) (audio : list npfloat) :
  rounding rnd ->
  load audio_path (sr self) = Ok audio ->
  audio <> [] ->
  (requested "speed" techniques = true ->
   forall speed, In speed (speed_factors rnd) ->
     is_ok (speed_perturbation time_stretch audio (lit_val speed)) = true) ->
  (requested "volume" techniques = true ->
   forall gain, In gain gains ->
     is_ok (py_pow10 pow10 (rnd (lit_val gain / 20))) = true) ->
  let run := augment_audio rnd pow10 normal_draw time_stretch load stem path_div
               self audio_path output_dir techniques w in
  let variants :=
    catalogue_variants path_div output_dir (stem audio_path) techniques in
  let contents :=
    catalogue_contents rnd pow10 normal_draw time_stretch audio (np_random w)
      techniques in
  fst run = Ok variants
  /\ List.length variants = (1 + 2 * requested_count techniques)%nat
  /\ (exists written,
        mapM (fun r => r) contents = Ok written
        /\ List.length written = List.length variants
        /\ files (snd run) = files w ++ combine (map fst variants) written)
  /\ written_paths (snd run) = written_paths w ++ map fst variants
  /\ (requested "speed" techniques = true ->
      requested "noise" techniques = true ->
      requested "volume" techniques = false ->
      map snd variants
      = ["original"; "speed_0.9"; "speed_1.1"; "noise_0.003"; "noise_0.007"]%string).
Proof.
  intros Hrnd Hload Hne Hspeed Hvol run variants contents.
  destruct audio as [|x audio]; [congruence|]. clear Hne.
  destruct (@augment_audio_run rnd pow10 normal_draw time_stretch load stem
              path_div self audio_path output_dir techniques w x audio
              Hrnd Hload Hspeed Hvol)
    as (written & w' & Hc & Erun & Hf & _).
  fold variants contents in Hc, Erun, Hf.
  unfold run. rewrite Erun. cbn [fst snd].
  assert (Hlen : List.length variants = (1 + 2 * requested_count techniques)%nat).
  { unfold variants, catalogue_variants, requested_count.
    destruct (requested "speed" techniques), (requested "noise" techniques),
      (requested "volume" techniques); reflexivity. }
  assert (Hw : List.length written = List.length variants).
  { rewrite (mapM_length _ _ Hc).
    unfold contents, catalogue_contents, variants, catalogue_variants.
    destruct (requested "speed" techniques), (requested "noise" techniques),
      (requested "volume" techniques); reflexivity. }
  split; [reflexivity|]. split; [exact Hlen|].
  split; [exists written; repeat split; assumption|].
  split.
  - unfold written_paths. rewrite Hf, map_app. f_equal.
    rewrite <- (length_map fst variants) in Hw.
    clear - Hw. revert written Hw.
    induction (map fst variants) as [|p ps IH]; intros [|a written] Hw;
      simpl in *; try discriminate; [reflexivity|].
    f_equal. apply IH. now injection Hw.
  - intros Es En Ev. unfold variants, catalogue_variants.
    now rewrite Es, En, Ev.
Qed.

(** The two gains of the catalogue have factors that are doubles. *)
Lemma exact_pow10_small (y : R) :
  y <= 1 -> py_pow10 exact_pow10 y = Ok (exact_pow10 y).
Proof.
  intros Hy. apply py_pow10_Ok. unfold exact_pow10.
  pose proof (Rpower_10_pos y) as Hpos.
  rewrite Rabs_right by lra.
  apply Rle_trans with (Rpower 10 1).
  - apply Rle_Rpower; lra.
  - rewrite Rpower_1 by lra.
    apply Rle_trans with (IZR 10); [lra|].
    unfold max_float. apply IZR_le, Z.leb_le. vm_compute. reflexivity.
Qed.

Lemma exact_gains_in_range (gain : Literal) :
  In gain gains ->
  is_ok (py_pow10 exact_pow10 (exact (lit_val gain / 20))) = true.
Proof.
  intros [<-|[<-|[]]]; cbn [lit_val]; unfold exact;
    rewrite exact_pow10_small by lra; reflexivity.
Qed.

Lemma augment_audio_catalogue_witness :
  let run := augment_audio exact exact_pow10 (fun _ _ => 0)
               (fun audio _ => Ok audio) (fun _ _ => Ok [Num 1])
               (fun name => name) join_with_slash
               (mkAugmenter 16000 (mkRng 42 0)) "clip" "out"
               ["speed"; "noise"]%string (fresh_world 1 2) in
  let variants :=
    catalogue_variants join_with_slash "out" "clip" ["speed"; "noise"]%string in
  let contents :=
    catalogue_contents exact exact_pow10 (fun _ _ => 0)
      (fun audio _ => Ok audio) [Num 1] (mkRng 2 0) ["speed"; "noise"]%string in
  fst run = Ok variants
  /\ List.length variants = 5%nat
  /\ (exists written,
        mapM (fun r => r) contents = Ok written
        /\ List.length written = List.length variants
        /\ files (snd run)
           = files (fresh_world 1 2) ++ combine (map fst variants) written)
  /\ written_paths (snd run)
     = ["out/clip_original.wav"; "out/clip_speed0.9.wav";
        "out/clip_speed1.1.wav"; "out/clip_noise0.003.wav";
        "out/clip_noise0.007.wav"]%string
  /\ map snd variants
     = ["original"; "speed_0.9"; "speed_1.1"; "noise_0.003"; "noise_0.007"]%string.
Proof.
  destruct (@augment_audio_catalogue exact exact_pow10 (fun _ _ => 0)
              (fun audio _ => Ok audio) (fun _ _ => Ok [Num 1])
              (fun name => name) join_with_slash
              (mkAugmenter 16000 (mkRng 42 0)) "clip" "out"
              ["speed"; "noise"]%string (fresh_world 1 2) [Num 1]
              rounding_exact eq_refl)
    as (H1 & H2 & H3 & H4 & H5).
  - discriminate.
  - intros _ speed _. reflexivity.
  - intros _ gain. apply exact_gains_in_range.
  - split; [exact H1|]. split; [exact H2|]. split; [exact H3|].
    split; [exact H4|]. now apply H5.
Defined.

(** C8 as stated fails on an empty buffer: with volume requested the
    planner raises [ValueError] and returns no list. *)
Lemma augment_audio_empty_buffer_raises :
  fst (augment_audio exact exact_pow10 (fun _ _ => 0)
         (fun audio _ => Ok audio) (fun _ _ => Ok []) (fun name => name)
         join_with_slash
         (mkAugmenter 16000 (mkRng 42 0)) "clip" "out" ["volume"%string]
         (fresh_world 1 2))
  = Raise ValueError.
Proof.
  assert (E : volume_perturbation exact exact_pow10 [] (-3) = Raise ValueError).
  { apply (@volume_perturbation_empty exact exact_pow10 (-3)
             (exact_pow10 (exact (-3 / 20)))).
    apply exact_pow10_small. unfold exact. lra. }
  unfold augment_audio.
  erewrite bindM_run by reflexivity.
  erewrite bindM_run by reflexivity.
  change (requested "speed" ["volume"%string]) with false.
  change (requested "noise" ["volume"%string]) with false.
  change (requested "volume" ["volume"%string]) with true.
  cbv iota.
  change (bindM (ret ?a) ?k ?w1) with (k a w1). cbv beta.
  change (bindM (ret ?a) ?k ?w1) with (k a w1). cbv beta.
  unfold volume_variants, gains. cbn [foldM lit_val].
  unfold bindM at 1 2 3. unfold lift at 1. rewrite E. reflexivity.
Qed.

(** Requesting speed and noise gives five entries. *)
Example catalogue_speed_noise_five :
  List.length (catalogue_variants join_with_slash "out" "clip"
                 ["speed"; "noise"]%string) = 5%nat.
Proof.
  reflexivity.
Qed.

Local Close Scope R_scope.

(** ** Reproducibility of the sample selection *)

(** C5 (the behaviour of the code).  [augment_dataset] seeds numpy's
    generator and the augmenter's own generator with 42, but selects the
    records with the [random] module's global generator, whose state comes
    from the process: two runs with the same records and ratio select
    different records when that generator's next draw differs. *)
Theorem select_samples_follows_process_state
    (py_draw : Z -> nat -> nat) (s1 s2 : Sample) (w1 w2 : World) :
  (py_draw (rng_seed (py_random w1)) (rng_pos (py_random w1)) mod 2 = 0)%nat ->
  (py_draw (rng_seed (py_random w2)) (rng_pos (py_random w2)) mod 2 = 1)%nat ->
  fst (select_samples py_draw [s1; s2] (1 # 2) w1) = Ok [s1]
  /\ fst (select_samples py_draw [s1; s2] (1 # 2) w2) = Ok [s2]
  /\ np_random (snd (select_samples py_draw [s1; s2] (1 # 2) w1))
     = np_random (snd (select_samples py_draw [s1; s2] (1 # 2) w2)).
Proof.
  intros H1 H2.
  unfold select_samples, AudioAugmenter_init, np_random_seed, random_sample,
    bindM, ret, lift.
  cbn -[Nat.modulo sample_loop].
  change (Pos.to_nat 1) with 1%nat.
  unfold sample_loop, randbelow, bindM, ret, lift.
  cbn -[Nat.modulo]. rewrite H1, H2. cbn. repeat split.
Qed.

Lemma select_samples_follows_process_state_witness :
  fst (select_samples example_draw scenario_records (1 # 3) (fresh_world 1 7))
  <> fst (select_samples example_draw scenario_records (1 # 3) (fresh_world 2 7))
  /\ fst (select_samples example_draw
            [example_sample "a1.wav" "A"; example_sample "b1.wav" "B"] (1 # 2)
            (fresh_world 1 7))
     = Ok [example_sample "a1.wav" "A"]
  /\ fst (select_samples example_draw
            [example_sample "a1.wav" "A"; example_sample "b1.wav" "B"] (1 # 2)
            (fresh_world 2 7))
     = Ok [example_sample "b1.wav" "B"].
Proof.
  split; [vm_compute; discriminate|].
  destruct (@select_samples_follows_process_state example_draw
              (example_sample "a1.wav" "A") (example_sample "b1.wav" "B")
              (fresh_world 1 7) (fresh_world 2 7) eq_refl eq_refl)
    as (E1 & E2 & _).
  split; [exact E1 | exact E2].
Defined.

(** The split takes its generator from [random_state=self.random_seed]: its
    result is a function of the seed, the ratios and the records alone, and
    two splitters with equal fields split alike. *)
Lemma split_by_speaker_seeded (mt_draw : Z -> nat -> nat)
    (self self' : DatasetSplitter) (data : list Sample) :
  train_ratio self = train_ratio self' ->
  valid_ratio self = valid_ratio self' ->
  test_ratio self = test_ratio self' ->
  random_seed self = random_seed self' ->
  split_by_speaker mt_draw self data = split_by_speaker mt_draw self' data.
Proof.
  intros _ Hv Ht Hs. unfold split_by_speaker. now rewrite Hv, Ht, Hs.
Qed.

(** * Further properties *)

Local Open Scope R_scope.

(** ** volume_perturbation on finite buffers *)

(** X3.  When the factor [10 ** (gain_db / 20)] is a double and the
    products of the samples with it are finite, the output never clips: no
    sample of the result exceeds 1.0 in absolute value. *)
Theorem volume_perturbation_never_clips (rnd pow10 : R -> R)
    (audio : list R) (gain_db gain_linear : R) :
  rounding rnd -> audio <> [] ->
  py_pow10 pow10 (rnd (gain_db / 20)) = Ok gain_linear ->
  0 <= gain_linear ->
  rnd (peak_of audio * gain_linear) <= max_float ->
  exists out,
    volume_perturbation rnd pow10 (map Num audio) gain_db = Ok (map Num out)
    /\ List.length out = List.length audio
    /\ peak_of out <= 1
    /\ forall x, In x out -> -1 <= x <= 1.
Proof.
  intros Hrnd Hne Hpow HG Hfin.
  rewrite (@volume_perturbation_Num rnd pow10 audio gain_db gain_linear
             Hrnd Hne Hpow HG Hfin).
  set (products := scaled rnd gain_linear audio).
  pose proof (double_095_range Hrnd) as Hc.
  eexists. split; [reflexivity|].
  assert (Hpk : peak_of (if Rlt_dec 1 (peak_of products)
                         then rescaled rnd products else products) <= 1).
  { destruct (Rlt_dec 1 (peak_of products)) as [Hp|Hp]; [|lra].
    rewrite (peak_of_rescaled Hrnd) by lra. lra. }
  split; [|split; [exact Hpk|]].
  - destruct (Rlt_dec 1 (peak_of products)); unfold products;
      now rewrite ?length_rescaled, length_scaled.
  - intros x Hx. pose proof (peak_of_ge _ _ Hx) as Hle.
    apply Rabs_bounds. lra.
Qed.

Lemma volume_perturbation_never_clips_witness :
  exists out,
    volume_perturbation exact exact_pow10 (map Num [2; -5]) 0
    = Ok (map Num out)
    /\ List.length out = List.length [2; -5]
    /\ peak_of out <= 1
    /\ forall x, In x out -> -1 <= x <= 1.
Proof.
  apply (@volume_perturbation_never_clips exact exact_pow10 [2; -5] 0 1
           rounding_exact).
  - discriminate.
  - apply exact_pow10_0.
  - lra.
  - assert (Hpk : peak_of [2; -5] = 5).
    { simpl. rewrite (Rabs_right 2), (Rabs_left (-5)) by lra.
      rewrite (Rmax_left (- -5) 0), Rmax_right; lra. }
    rewrite Hpk. unfold exact.
    apply Rle_trans with (IZR 5); [lra|].
    unfold max_float. apply IZR_le, Z.leb_le. vm_compute. reflexivity.
Defined.

(** ** add_background_noise: outcomes on any buffers *)

Lemma fit_noise_empty_audio (noise_audio : list npfloat) :
  fit_noise [] noise_audio = Ok [].
Proof.
  unfold fit_noise. cbn [List.length].
  destruct (Nat.ltb_spec (List.length noise_audio) 0) as [H|_]; [lia|].
  reflexivity.
Qed.

Lemma fit_noise_returns (audio noise_audio : list npfloat) :
  audio = [] \/ noise_audio <> [] ->
  exists fitted,
    fit_noise audio noise_audio = Ok fitted
    /\ List.length fitted = List.length audio.
Proof.
  intros [->|Hn].
  - exists []. split; [apply fit_noise_empty_audio|reflexivity].
  - rewrite (fit_noise_periodic audio Hn). eexists. split; [reflexivity|].
    now rewrite length_map, length_seq.
Qed.

(** Once the noise is fitted, an exception of the power is the exception of
    the call. *)
Lemma add_background_noise_power_raises
    (rnd pow10 : R -> R) (np_add_reduce : list npfloat -> npfloat)
    (audio noise_audio : list npfloat) (snr_db : R) (e : exn) :
  audio = [] \/ noise_audio <> [] ->
  snr_linear rnd pow10 snr_db = Raise e ->
  add_background_noise rnd pow10 np_add_reduce audio noise_audio snr_db
  = Raise e.
Proof.
  intros Hcase He. unfold add_background_noise.
  destruct (fit_noise_returns Hcase) as (fitted & -> & _). cbn [bind].
  unfold noise_scale. now rewrite He.
Qed.

(** X6.  [add_background_noise] raises [ZeroDivisionError] on an empty
    noise with a signal that is not empty; otherwise it raises
    [OverflowError] when [10 ** (snr_db / 10)] is beyond the largest
    double; otherwise it raises [ValueError] on an empty signal, and on any
    other input, of finite samples or not, it raises nothing and returns a
    buffer as long as the signal. *)
Theorem add_background_noise_outcome
    (rnd pow10 : R -> R) (np_add_reduce : list npfloat -> npfloat)
    (audio noise_audio : list npfloat) (snr_db : R) :
  let result :=
    add_background_noise rnd pow10 np_add_reduce audio noise_audio snr_db in
  (audio <> [] -> noise_audio = [] -> result = Raise ZeroDivisionError)
  /\ (forall e,
        audio = [] \/ noise_audio <> [] ->
        snr_linear rnd pow10 snr_db = Raise e ->
        e = OverflowError /\ result = Raise e)
  /\ (forall snr_linear_value,
        snr_linear rnd pow10 snr_db = Ok snr_linear_value ->
        (audio = [] -> result = Raise ValueError)
        /\ (audio <> [] -> noise_audio <> [] ->
            exists out,
              result = Ok out /\ List.length out = List.length audio)).
Proof.
  intros result. unfold result. split; [|split].
  - intros Ha ->. destruct audio as [|x audio]; [congruence|]. reflexivity.
  - intros e Hcase He. split.
    + destruct (snr_linear_cases rnd pow10 snr_db) as [[L E]|E]; congruence.
    + now apply add_background_noise_power_raises.
  - intros L HL. unfold add_background_noise. split.
    + intros ->. rewrite fit_noise_empty_audio. cbn [bind].
      unfold noise_scale. rewrite HL. reflexivity.
    + intros Ha Hn.
      destruct (@fit_noise_returns audio noise_audio (or_intror Hn))
        as (fitted & -> & Hlen).
      cbn [bind].
      unfold noise_scale. rewrite HL. cbn [bind].
      set (augmented := arr_add rnd audio _).
      assert (Hlen' : List.length augmented = List.length audio).
      { unfold augmented. apply length_arr_add.
        now rewrite length_map, Hlen. }
      clearbody augmented. destruct augmented as [|z rest].
      { destruct audio; simpl in Hlen'; congruence. }
      destruct (peak_rescale_nonempty rnd z rest) as [out Hout].
      exists out. split; [exact Hout|].
      rewrite (peak_rescale_length _ _ Hout). exact Hlen'.
Qed.

Lemma add_background_noise_outcome_witness :
  add_background_noise exact exact_pow10 (sequential_sum exact) [Num 1] [] 15
  = Raise ZeroDivisionError
  /\ add_background_noise exact exact_pow10 (sequential_sum exact) [] [Num 1] 15
     = Raise ValueError
  /\ exists out,
       add_background_noise exact exact_pow10 (sequential_sum exact)
         [Num 1; NaN] [PInf] 15 = Ok out
       /\ List.length out = List.length [Num 1; NaN].
Proof.
  destruct exact_snr_linear_15 as (L & EL & _).
  split; [|split].
  - apply (proj1 (add_background_noise_outcome exact exact_pow10
                    (sequential_sum exact) [Num 1] [] 15));
      [discriminate | reflexivity].
  - apply (proj1 (proj2 (proj2 (add_background_noise_outcome exact exact_pow10
                                  (sequential_sum exact) [] [Num 1] 15))
                    L EL)).
    reflexivity.
  - apply (proj2 (proj2 (proj2 (add_background_noise_outcome exact exact_pow10
                                  (sequential_sum exact) [Num 1; NaN] [PInf] 15))
                    L EL));
      discriminate.
Defined.

(** A signal-to-noise ratio of 31000 dB: [10 ** 3100] is no double, and the
    call raises [OverflowError]. *)
Example add_background_noise_large_snr_raises :
  add_background_noise exact exact_pow10 (sequential_sum exact)
    [Num 1] [Num 1] 3100
  = Raise OverflowError.
Proof.
  assert (E : snr_linear exact exact_pow10 3100 = Raise OverflowError).
  { unfold snr_linear.
    replace (exact (3100 / 10)) with 310 by (unfold exact; lra).
    apply py_pow10_Raise.
    pose proof exact_pow10_310. pose proof max_float_ge_1.
    rewrite Rabs_right; lra. }
  apply add_background_noise_power_raises; [right; discriminate | exact E].
Qed.

(** ** add_white_noise *)

Lemma add_white_noise_empty (rnd : R -> R) (normal_draw : Z -> nat -> R)
    (noise_level : R) (w : World) :
  0 <= noise_level ->
  fst (add_white_noise rnd normal_draw [] noise_level w) = Raise ValueError.
Proof.
  intros H. now rewrite add_white_noise_run.
Qed.

(** The samples [np.random.normal(0, scale, n)] returns when every product
    of the deviation with a draw is finite. *)
Lemma normal_samples_Num (rnd : R -> R) (draws : list R) (noise_level : R) :
  rounding rnd -> 0 <= noise_level ->
  rnd (peak_of draws * noise_level) <= max_float ->
  map (fun z => np_add rnd (Num 0) (np_mul rnd (Num noise_level) (Num z))) draws
  = map Num (scaled rnd noise_level draws).
Proof.
  intros Hrnd Hl Hfin. unfold scaled. rewrite map_map.
  apply map_ext_in. intros z Hz.
  assert (Hb : Rabs (rnd (z * noise_level)) <= max_float).
  { rewrite (rnd_abs_scale Hrnd) by exact Hl.
    eapply Rle_trans; [|exact Hfin].
    apply (rnd_monotone Hrnd). pose proof (peak_of_ge _ _ Hz). nra. }
  simpl. rewrite (Rmult_comm noise_level z).
  rewrite (fl_finite rnd (z * noise_level)) by exact Hb.
  simpl. rewrite Rplus_0_l. rewrite fl_finite.
  - now rewrite (rnd_idempotent Hrnd).
  - now rewrite (rnd_idempotent Hrnd).
Qed.

(** X7.  [add_white_noise] raises [ValueError] for a negative deviation,
    without a draw.  For a deviation that is not negative and a buffer of
    finite samples that is not empty it raises nothing, returns a buffer of
    the same length, consumes exactly [len(audio)] draws of numpy's global
    generator and leaves the other generator and the files alone; when the
    noise and the noisy mixture are finite and the mixture is not
    identically zero, the result is the mixture rescaled, its peak the
    double 0.95. *)
Theorem add_white_noise_effect (rnd : R -> R) (normal_draw : Z -> nat -> R)
    (audio : list R) (noise_level : R) (w : World) :
  rounding rnd ->
  (noise_level < 0 ->
     add_white_noise rnd normal_draw (map Num audio) noise_level w
     = (Raise ValueError, w))
  /\ (0 <= noise_level -> audio <> [] ->
      let g := np_random w in
      let draws := map (fun k => normal_draw (rng_seed g) (rng_pos g + k)%nat)
                       (seq 0 (List.length audio)) in
      let mixture := mix rnd audio (scaled rnd noise_level draws) in
      exists out,
        add_white_noise rnd normal_draw (map Num audio) noise_level w
        = (Ok out,
           mkWorld (py_random w)
                   (mkRng (rng_seed g) (rng_pos g + List.length audio))
                   (files w))
        /\ List.length out = List.length audio
        /\ (rnd (peak_of draws * noise_level) <= max_float ->
            peak_of mixture <= max_float -> 0 < peak_of mixture ->
            out = map Num (rescaled rnd mixture)
            /\ peak_of (rescaled rnd mixture) = double_095 rnd)).
Proof.
  intros Hrnd. split.
  - intros Hneg. now apply add_white_noise_negative.
  - intros Hl Hne g draws mixture.
    rewrite add_white_noise_run by exact Hl.
    rewrite length_map. fold g.
    destruct audio as [|x audio]; [congruence|].
    destruct (white_noise_mixture_nonempty rnd normal_draw (Num x)
                (map Num audio) noise_level g) as [out Hout].
    change (Num x :: map Num audio) with (map Num (x :: audio)) in Hout.
    exists out. rewrite Hout. split; [reflexivity|].
    unfold white_noise_mixture in Hout. rewrite length_map in Hout.
    assert (Hmap : map (fun k =>
                          np_add rnd (Num 0)
                            (np_mul rnd (Num noise_level)
                               (Num (normal_draw (rng_seed g) (rng_pos g + k)%nat))))
                       (seq 0 (List.length (x :: audio)))
                   = map (fun z => np_add rnd (Num 0)
                                     (np_mul rnd (Num noise_level) (Num z)))
                         draws).
    { unfold draws. now rewrite map_map. }
    rewrite Hmap in Hout.
    split.
    + rewrite (peak_rescale_length _ _ Hout).
      rewrite length_arr_add; [now rewrite length_map|].
      unfold draws. now rewrite !length_map, length_seq.
    + intros Hfin Hmix Hpk.
      rewrite (normal_samples_Num draws Hrnd Hl Hfin) in Hout.
      rewrite (@arr_add_Num rnd (x :: audio) (scaled rnd noise_level draws) Hmix)
        in Hout.
      fold mixture in Hout.
      rewrite (peak_rescale_Num Hrnd mixture Hpk) in Hout.
      injection Hout as <-. split; [reflexivity|].
      now apply peak_of_rescaled.
Qed.

Lemma add_white_noise_effect_witness :
  add_white_noise exact (fun _ _ => 1) (map Num [1; 2]) (-1) (fresh_world 1 42)
  = (Raise ValueError, fresh_world 1 42)
  /\ exists out,
       add_white_noise exact (fun _ _ => 1) (map Num [1; 2]) (3 / 1000)
         (fresh_world 1 42)
       = (Ok out, mkWorld (mkRng 1 0) (mkRng 42 2) [])
       /\ List.length out = 2%nat.
Proof.
  split.
  - apply (proj1 (@add_white_noise_effect exact (fun _ _ => 1) [1; 2] (-1)
                    (fresh_world 1 42) rounding_exact)).
    lra.
  - destruct (proj2 (@add_white_noise_effect exact (fun _ _ => 1) [1; 2]
                       (3 / 1000) (fresh_world 1 42) rounding_exact))
      as (out & E & L & _).
    + lra.
    + discriminate.
    + exists out. split; [exact E | exact L].
Defined.

Local Close Scope R_scope.

(** ** random.sample and the selection step *)

Lemma firstn_update_lt {A : Type} (l : list A) (m j : nat) (v : A) :
  (j < m)%nat -> firstn m (update l j v) = update (firstn m l) j v.
Proof.
  revert m j; induction l as [|a l IH]; intros [|m] [|j] H; simpl;
    try reflexivity; try lia.
  f_equal. apply IH. lia.
Qed.

Lemma firstn_update_ge {A : Type} (l : list A) (m j : nat) (v : A) :
  (m <= j)%nat -> firstn m (update l j v) = firstn m l.
Proof.
  revert m j; induction l as [|a l IH]; intros [|m] [|j] H; simpl;
    try reflexivity; try lia.
  f_equal. apply IH. lia.
Qed.

Lemma firstn_S_snoc {A : Type} (l : list A) (m : nat) (y : A) :
  nth_error l m = Some y -> firstn (S m) l = firstn m l ++ [y].
Proof.
  revert m; induction l as [|a l IH]; intros [|m] H; simpl in *;
    try discriminate.
  - now injection H as ->.
  - f_equal. now apply IH.
Qed.

(** One step of the pool algorithm: taking [pool[j]] and moving the last
    live element into its place leaves the other live elements. *)
Lemma pool_step_Permutation {A : Type} (pool : list A) (m j : nat) (x y : A) :
  (j <= m)%nat ->
  nth_error pool j = Some x -> nth_error pool m = Some y ->
  Permutation (x :: firstn m (update pool j y)) (firstn (S m) pool).
Proof.
  intros Hj Hx Hy. rewrite (firstn_S_snoc _ _ Hy).
  destruct (Nat.eq_dec j m) as [->|Hne].
  - rewrite firstn_update_ge by lia.
    assert (x = y) by congruence. subst x. apply Permutation_cons_append.
  - rewrite firstn_update_lt by lia.
    rewrite <- Permutation_cons_append.
    apply update_Permutation.
    rewrite nth_error_firstn.
    destruct (Nat.ltb_spec j m) as [_|]; [exact Hx | lia].
Qed.

Section SampleFacts.

Variable py_draw : Z -> nat -> nat.

Lemma sample_loop_spec {A : Type} (k : nat) :
  forall (m : nat) (pool acc : list A) (w : World),
    (k <= m)%nat -> (m <= List.length pool)%nat ->
    exists sel w',
      sample_loop py_draw k m pool acc w = (Ok (acc ++ sel), w')
      /\ List.length sel = k
      /\ selection_of sel (firstn m pool)
      /\ py_random w' = mkRng (rng_seed (py_random w))
                              (rng_pos (py_random w) + k)
      /\ np_random w' = np_random w
      /\ files w' = files w.
Proof.
  induction k as [|k IH]; intros m pool acc w Hk Hm.
  - exists [], w. simpl. unfold ret. rewrite app_nil_r, Nat.add_0_r.
    repeat split; try reflexivity.
    + exists (firstn m pool). reflexivity.
    + now destruct (py_random w).
  - destruct m as [|m]; [lia|].
    cbn [sample_loop]. unfold bindM at 1. unfold randbelow at 1.
    set (j := (py_draw (rng_seed (py_random w)) (rng_pos (py_random w))
               mod S m)%nat).
    assert (Hj : (j < S m)%nat) by (apply Nat.mod_upper_bound; lia).
    replace (S m - 1)%nat with m by lia.
    destruct (nth_error pool j) as [x|] eqn:Ex.
    2:{ apply nth_error_None in Ex. lia. }
    destruct (nth_error pool m) as [y|] eqn:Ey.
    2:{ apply nth_error_None in Ey. lia. }
    set (w1 := mkWorld _ _ _).
    destruct (IH m (update pool j y) (acc ++ [x]) w1) as
      (sel & w' & E & L & [rest P] & Hpy & Hnp & Hf); [lia| |].
    { rewrite update_length. lia. }
    exists (x :: sel), w'. rewrite E, <- app_assoc.
    repeat split; try assumption.
    + simpl. now rewrite L.
    + exists rest. simpl. rewrite P.
      apply pool_step_Permutation; [lia | exact Ex | exact Ey].
    + rewrite Hpy. unfold w1. cbn [py_random rng_seed rng_pos].
      f_equal. lia.
Qed.

Lemma random_sample_spec {A : Type} (population : list A) (k : Z) (w : World) :
  (0 <= k <= Z.of_nat (List.length population))%Z ->
  exists sel w',
    random_sample py_draw population k w = (Ok sel, w')
    /\ List.length sel = Z.to_nat k
    /\ selection_of sel population
    /\ py_random w' = mkRng (rng_seed (py_random w))
                            (rng_pos (py_random w) + Z.to_nat k)
    /\ np_random w' = np_random w
    /\ files w' = files w.
Proof.
  intros Hk. unfold random_sample.
  destruct (Z.ltb_spec k 0) as [|_]; [lia|].
  destruct (Z.ltb_spec (Z.of_nat (List.length population)) k) as [|_]; [lia|].
  cbn [orb].
  destruct (@sample_loop_spec A (Z.to_nat k) (List.length population)
              population [] w) as (sel & w' & E & L & S & Hw); [lia|lia|].
  exists sel, w'. rewrite firstn_all in S.
  repeat split; try assumption; apply Hw.
Qed.

Lemma random_sample_out_of_range {A : Type} (population : list A) (k : Z)
    (w : World) :
  (k < 0 \/ Z.of_nat (List.length population) < k)%Z ->
  random_sample py_draw population k w = (Raise ValueError, w).
Proof.
  intros Hk. unfold random_sample.
  destruct (Z.ltb_spec k 0) as [|H0]; [reflexivity|].
  destruct (Z.ltb_spec (Z.of_nat (List.length population)) k) as [|];
    [reflexivity|lia].
Qed.

End SampleFacts.



(** ** The splits of [main] *)

Section MainFacts.

Variable mt_draw : Z -> nat -> nat.

(** [train_test_split] returns a partition with [ceil(test_size * n)] test
    elements and at least one training element, or raises [ValueError]. *)
Lemma train_test_split_cases {A : Type} (arr : list A) (ts : Q) (seed : Z) :
  let n_test := Qceiling (ts * inject_Z (Z.of_nat (List.length arr))) in
  match train_test_split mt_draw arr ts seed with
  | Ok (train, test) =>
      (0 < ts)%Q /\ (ts < 1)%Q
      /\ Permutation (train ++ test) arr
      /\ Z.of_nat (List.length test) = n_test
      /\ (Z.of_nat (List.length train)
          = Z.of_nat (List.length arr) - n_test)%Z
      /\ (0 <= n_test < Z.of_nat (List.length arr))%Z
  | Raise e =>
      e = ValueError
      /\ ~ ((0 < ts)%Q /\ (ts < 1)%Q /\ (n_test < Z.of_nat (List.length arr))%Z)
  end.
Proof.
  intros n_test.
  destruct (validate_shuffle_split (List.length arr) ts) as [[a b]|e] eqn:Hv.
  - destruct (train_test_split_Ok mt_draw _ _ seed Hv)
      as (train & test & E & P & L).
    rewrite E.
    apply validate_shuffle_split_Ok in Hv as (H0 & H1 & Hb & Ha & Hlt).
    pose proof (Qceiling_scaled_range (List.length arr) H0 H1) as Hr.
    fold n_test in Hb, Hr. subst b.
    pose proof (Permutation_length P) as PL. rewrite length_app in PL.
    repeat split; auto; lia.
  - rewrite (train_test_split_Raise mt_draw _ _ seed Hv).
    assert (He : validate_shuffle_split (List.length arr) ts = Raise ValueError).
    { apply validate_shuffle_split_Raise. intros a b Hab. congruence. }
    split; [congruence|].
    intros (H0 & H1 & Hlt).
    assert (Hok : validate_shuffle_split (List.length arr) ts
                  = Ok ((Z.of_nat (List.length arr) - n_test)%Z, n_test))
      by (apply validate_shuffle_split_Ok; auto).
    congruence.
Qed.

End MainFacts.

Lemma Qceiling_fifth (n : Z) :
  Qceiling ((2 # 10) * inject_Z n) = ((n + 4) / 5)%Z.
Proof.
  unfold Qceiling, Qfloor, Qopp, Qmult, inject_Z. cbn [Qnum Qden].
  change (Z.pos (10 * 1)) with (2 * 5)%Z.
  replace (- (2 * n))%Z with (2 * - n)%Z by ring.
  rewrite Z.div_mul_cancel_l by lia. Z.div_mod_to_equations. lia.
Qed.

Lemma Qceiling_half (n : Z) :
  Qceiling ((5 # 10) * inject_Z n) = ((n + 1) / 2)%Z.
Proof.
  unfold Qceiling, Qfloor, Qopp, Qmult, inject_Z. cbn [Qnum Qden].
  change (Z.pos (10 * 1)) with (5 * 2)%Z.
  replace (- (5 * n))%Z with (5 * - n)%Z by ring.
  rewrite Z.div_mul_cancel_l by lia. Z.div_mod_to_equations. lia.
Qed.

Lemma Qceiling_fifth_sum (n : Z) :
  Qceiling (((1 # 10) + (1 # 10)) * inject_Z n) = ((n + 4) / 5)%Z.
Proof.
  change ((1 # 10) + (1 # 10))%Q with (20 # 100)%Q.
  unfold Qceiling, Qfloor, Qopp, Qmult, inject_Z. cbn [Qnum Qden].
  change (Z.pos (100 * 1)) with (20 * 5)%Z.
  replace (- (20 * n))%Z with (20 * - n)%Z by ring.
  rewrite Z.div_mul_cancel_l by lia. Z.div_mod_to_equations. lia.
Qed.

Lemma Qceiling_half_quotient (n : Z) :
  Qceiling ((1 # 10) / ((1 # 10) + (1 # 10)) * inject_Z n) = ((n + 1) / 2)%Z.
Proof.
  change ((1 # 10) / ((1 # 10) + (1 # 10)))%Q with (100 # 200)%Q.
  unfold Qceiling, Qfloor, Qopp, Qmult, inject_Z. cbn [Qnum Qden].
  change (Z.pos (200 * 1)) with (100 * 2)%Z.
  replace (- (100 * n))%Z with (100 * - n)%Z by ring.
  rewrite Z.div_mul_cancel_l by lia. Z.div_mod_to_equations. lia.
Qed.

(** X10.  The record-level split of [main] needs at least six records: with
    fewer it raises [ValueError]; with six or more it returns a partition of
    the records into three lists that are not empty, the valid and test
    lists together holding [ceil(n / 5)] records and the test list half of
    those, rounded up. *)
Theorem random_split_outcome (mt_draw : Z -> nat -> nat)
    (all_samples : list Sample) :
  let n := List.length all_samples in
  match random_split mt_draw all_samples with
  | Ok (train_data, valid_data, test_data) =>
      (6 <= n)%nat
      /\ Permutation (train_data ++ valid_data ++ test_data) all_samples
      /\ (List.length valid_data + List.length test_data)%nat = ceil_div n 5
      /\ List.length test_data = ceil_div (ceil_div n 5) 2
      /\ train_data <> [] /\ valid_data <> [] /\ test_data <> []
  | Raise e => e = ValueError /\ (n < 6)%nat
  end.
Proof.
  intros n. unfold random_split.
  pose proof (train_test_split_cases mt_draw all_samples (2 # 10) 42) as H1.
  cbv zeta in H1. rewrite Qceiling_fifth in H1. fold n in H1.
  destruct (train_test_split mt_draw all_samples (2 # 10) 42)
    as [[train_data temp_data]|e]; cbn [bind].
  2:{ destruct H1 as [-> H1]. split; [reflexivity|].
      destruct (Nat.lt_ge_cases n 6) as [|Hge]; [assumption|].
      exfalso. apply H1. repeat split; try reflexivity.
      Z.div_mod_to_equations. lia. }
  destruct H1 as (_ & _ & P1 & Lt1 & Ltr1 & R1).
  pose proof (train_test_split_cases mt_draw temp_data (5 # 10) 42) as H2.
  cbv zeta in H2. rewrite Qceiling_half in H2.
  destruct (train_test_split mt_draw temp_data (5 # 10) 42)
    as [[valid_data test_data]|e]; cbn [bind].
  2:{ destruct H2 as [-> H2]. split; [reflexivity|].
      destruct (Nat.lt_ge_cases n 6) as [|Hge]; [assumption|].
      exfalso. apply H2. repeat split; try reflexivity.
      rewrite Lt1. Z.div_mod_to_equations. lia. }
  destruct H2 as (_ & _ & P2 & Lt2 & Ltr2 & R2).
  rewrite Lt1 in *.
  assert (Hsizes : (6 <= n)%nat
                   /\ (List.length valid_data + List.length test_data)%nat
                      = ceil_div n 5
                   /\ List.length test_data = ceil_div (ceil_div n 5) 2
                   /\ (0 < List.length train_data)%nat
                   /\ (0 < List.length valid_data)%nat
                   /\ (0 < List.length test_data)%nat).
  { unfold ceil_div.
    pose proof (Nat.div_mod_eq (n + 5 - 1) 5).
    pose proof (Nat.mod_upper_bound (n + 5 - 1) 5).
    pose proof (Nat.div_mod_eq ((n + 5 - 1) / 5 + 2 - 1) 2).
    pose proof (Nat.mod_upper_bound ((n + 5 - 1) / 5 + 2 - 1) 2).
    Z.div_mod_to_equations. lia. }
  destruct Hsizes as (H6 & Hvt & Hte & Ptr & Pva & Pte).
  repeat split; try assumption.
  - rewrite <- P1, <- P2. reflexivity.
  - intros ->. simpl in Ptr. lia.
  - intros ->. simpl in Pva. lia.
  - intros ->. simpl in Pte. lia.
Qed.

Example random_split_seven_records :
  match random_split example_draw
          (scenario_records ++ scenario_records ++ [example_sample "c1.wav" "C"])
  with
  | Ok (train_data, valid_data, test_data) =>
      List.length train_data = 5%nat /\ List.length valid_data = 1%nat
      /\ List.length test_data = 1%nat
  | Raise _ => False
  end.
Proof.
  vm_compute. repeat split.
Qed.

Lemma expand_nonempty (data : list Sample) (ks : list string) :
  ks <> [] -> (forall k, In k ks -> In k (distinct_speakers data)) ->
  flat_map (dict_get (group_by_speaker data)) ks <> [].
Proof.
  destruct ks as [|k ks]; [congruence|]. intros _ Hin E.
  pose proof (Hin k (or_introl eq_refl)) as Hk.
  apply distinct_speakers_In, in_map_iff in Hk as (s & Hs & Hd).
  assert (In s (flat_map (dict_get (group_by_speaker data)) (k :: ks))).
  { apply expand_In. split; [exact Hd|]. rewrite Hs. now left. }
  rewrite E in H. contradiction.
Qed.

(** X11.  The speaker-level split of [main], with its ratios 0.8/0.1/0.1,
    needs at least six distinct speakers: with fewer it raises [ValueError];
    with six or more it deals the speakers into three groups, [ceil(n / 5)]
    of them for valid and test together and half of those, rounded up, for
    test, and returns for each group the records of its speakers, none of
    the three lists being empty. *)
Theorem main_speaker_split_outcome (mt_draw : Z -> nat -> nat)
    (all_samples : list Sample) :
  let n := List.length (distinct_speakers all_samples) in
  let expand := flat_map (dict_get (group_by_speaker all_samples)) in
  match main_split mt_draw true all_samples with
  | Ok (train_data, valid_data, test_data) =>
      (6 <= n)%nat
      /\ train_data <> [] /\ valid_data <> [] /\ test_data <> []
      /\ exists train_speakers valid_speakers test_speakers,
           Permutation (train_speakers ++ valid_speakers ++ test_speakers)
                       (distinct_speakers all_samples)
           /\ train_data = expand train_speakers
           /\ valid_data = expand valid_speakers
           /\ test_data = expand test_speakers
           /\ (List.length valid_speakers + List.length test_speakers)%nat
              = ceil_div n 5
           /\ List.length test_speakers = ceil_div (ceil_div n 5) 2
  | Raise e => e = ValueError /\ (n < 6)%nat
  end.
Proof.
  intros n expand. unfold main_split, run_speaker_split.
  change (DatasetSplitter_init (8 # 10) (1 # 10) (1 # 10) 42)
    with (Ok (mkSplitter (8 # 10) (1 # 10) (1 # 10) 42)).
  cbn [bind]. unfold split_by_speaker.
  cbn [valid_ratio test_ratio random_seed].
  fold (distinct_speakers all_samples). fold expand.
  set (ks := distinct_speakers all_samples) in *.
  pose proof (train_test_split_cases mt_draw ks ((1 # 10) + (1 # 10)) 42) as H1.
  cbv zeta in H1. rewrite Qceiling_fifth_sum in H1. fold n in H1.
  destruct (train_test_split mt_draw ks ((1 # 10) + (1 # 10)) 42)
    as [[trs temps]|e]; cbn [bind].
  2:{ destruct H1 as [-> H1]. split; [reflexivity|].
      destruct (Nat.lt_ge_cases n 6) as [|Hge]; [assumption|].
      exfalso. apply H1. repeat split; try reflexivity.
      Z.div_mod_to_equations. lia. }
  destruct H1 as (_ & _ & P1 & Lt1 & Ltr1 & R1).
  change (pydiv (1 # 10) ((1 # 10) + (1 # 10)))
    with (Ok ((1 # 10) / ((1 # 10) + (1 # 10)))%Q).
  cbn [bind].
  pose proof (train_test_split_cases mt_draw temps
                ((1 # 10) / ((1 # 10) + (1 # 10))) 42) as H2.
  cbv zeta in H2. rewrite Qceiling_half_quotient in H2.
  destruct (train_test_split mt_draw temps ((1 # 10) / ((1 # 10) + (1 # 10))) 42)
    as [[vas tes]|e]; cbn [bind].
  2:{ destruct H2 as [-> H2]. split; [reflexivity|].
      destruct (Nat.lt_ge_cases n 6) as [|Hge]; [assumption|].
      exfalso. apply H2. repeat split; try reflexivity.
      rewrite Lt1. Z.div_mod_to_equations. lia. }
  destruct H2 as (_ & _ & P2 & Lt2 & Ltr2 & R2).
  rewrite Lt1 in *.
  assert (Hsizes : (6 <= n)%nat
                   /\ (List.length vas + List.length tes)%nat = ceil_div n 5
                   /\ List.length tes = ceil_div (ceil_div n 5) 2
                   /\ (0 < List.length trs)%nat
                   /\ (0 < List.length vas)%nat
                   /\ (0 < List.length tes)%nat).
  { unfold ceil_div.
    pose proof (Nat.div_mod_eq (n + 5 - 1) 5).
    pose proof (Nat.mod_upper_bound (n + 5 - 1) 5).
    pose proof (Nat.div_mod_eq ((n + 5 - 1) / 5 + 2 - 1) 2).
    pose proof (Nat.mod_upper_bound ((n + 5 - 1) / 5 + 2 - 1) 2).
    Z.div_mod_to_equations. lia. }
  destruct Hsizes as (H6 & Hvt & Hte & Ptr & Pva & Pte).
  assert (PP : Permutation (trs ++ vas ++ tes) ks)
    by (rewrite <- P1, <- P2; reflexivity).
  assert (Hin : forall k, In k (trs ++ vas ++ tes) -> In k ks)
    by (intros k; apply Permutation_in; exact PP).
  split; [exact H6|].
  split; [|split; [|split]].
  - apply expand_nonempty; [intros ->; simpl in Ptr; lia|].
    intros k Hk. apply Hin, in_or_app. now left.
  - apply expand_nonempty; [intros ->; simpl in Pva; lia|].
    intros k Hk. apply Hin, in_or_app. right. apply in_or_app. now left.
  - apply expand_nonempty; [intros ->; simpl in Pte; lia|].
    intros k Hk. apply Hin, in_or_app. right. apply in_or_app. now right.
  - exists trs, vas, tes. repeat split; assumption.
Qed.

Lemma random_split_Permutation (mt_draw : Z -> nat -> nat)
    (all_samples tr va te : list Sample) :
  random_split mt_draw all_samples = Ok (tr, va, te) ->
  Permutation (tr ++ va ++ te) all_samples.
Proof.
  unfold random_split.
  pose proof (train_test_split_cases mt_draw all_samples (2 # 10) 42) as H1.
  destruct (train_test_split mt_draw all_samples (2 # 10) 42)
    as [[train_data temp_data]|e]; cbn [bind]; [|discriminate].
  pose proof (train_test_split_cases mt_draw temp_data (5 # 10) 42) as H2.
  destruct (train_test_split mt_draw temp_data (5 # 10) 42)
    as [[valid_data test_data]|e]; cbn [bind]; [|discriminate].
  intros E. injection E as <- <- <-.
  destruct H1 as (_ & _ & P1 & _). destruct H2 as (_ & _ & P2 & _).
  rewrite <- P1, <- P2. reflexivity.
Qed.

Lemma split_by_speaker_Permutation (mt_draw : Z -> nat -> nat)
    (self : DatasetSplitter) (data tr va te : list Sample) :
  split_by_speaker mt_draw self data = Ok (tr, va, te) ->
  Permutation (tr ++ va ++ te) data.
Proof.
  unfold split_by_speaker. fold (distinct_speakers data).
  pose proof (train_test_split_cases mt_draw (distinct_speakers data)
                (valid_ratio self + test_ratio self) (random_seed self)) as H1.
  destruct (train_test_split mt_draw (distinct_speakers data)
              (valid_ratio self + test_ratio self) (random_seed self))
    as [[trs temps]|e]; cbn [bind]; [|discriminate].
  destruct (pydiv (test_ratio self) (valid_ratio self + test_ratio self))
    as [ts2|e]; cbn [bind]; [|discriminate].
  pose proof (train_test_split_cases mt_draw temps ts2 (random_seed self)) as H2.
  destruct (train_test_split mt_draw temps ts2 (random_seed self))
    as [[vas tes]|e]; cbn [bind]; [|discriminate].
  intros E. injection E as <- <- <-.
  destruct H1 as (_ & _ & P1 & _). destruct H2 as (_ & _ & P2 & _).
  apply expand_invariant. rewrite <- P1, <- P2. reflexivity.
Qed.

Lemma main_split_Permutation (mt_draw : Z -> nat -> nat)
    (use_speaker_split : bool) (all_samples tr va te : list Sample) :
  main_split mt_draw use_speaker_split all_samples = Ok (tr, va, te) ->
  Permutation (tr ++ va ++ te) all_samples.
Proof.
  unfold main_split, run_speaker_split. destruct use_speaker_split.
  - destruct (DatasetSplitter_init (8 # 10) (1 # 10) (1 # 10) 42)
      as [splitter|e]; cbn [bind]; [|discriminate].
    apply split_by_speaker_Permutation.
  - apply random_split_Permutation.
Qed.

(** X12.  Whichever split is used, when [main] gets to its statistics the
    three per-split counts add up to the total, which is the number of
    records loaded, and the flag and the sample rate are the ones given. *)
Theorem main_report_counts_add_up (mt_draw : Z -> nat -> nat)
    (get_duration : string -> Q) (sample_rate : Z) (use_speaker_split : bool)
    (all_samples : list Sample) (stats : Stats) :
  main_report mt_draw get_duration sample_rate use_speaker_split all_samples
  = Ok stats ->
  (train_samples stats + valid_samples stats + test_samples stats)%nat
  = total_samples stats
  /\ total_samples stats = List.length all_samples
  /\ speaker_split stats = use_speaker_split
  /\ target_sr stats = sample_rate.
Proof.
  unfold main_report. intros H.
  destruct (main_split mt_draw use_speaker_split all_samples)
    as [[[tr va] te]|e] eqn:E; cbn [bind] in H; [|discriminate].
  injection H as <-. cbn.
  pose proof (Permutation_length (main_split_Permutation _ _ _ E)) as L.
  rewrite !length_app in L. repeat split. lia.
Qed.

Lemma main_report_counts_add_up_witness :
  let all_samples :=
    scenario_records ++ scenario_records ++ [example_sample "c1.wav" "C"] in
  exists stats,
    main_report example_draw (fun _ => 3) 16000 false all_samples = Ok stats
    /\ (train_samples stats + valid_samples stats + test_samples stats)%nat
       = total_samples stats
    /\ total_samples stats = List.length all_samples
    /\ speaker_split stats = false
    /\ target_sr stats = 16000%Z.
Proof.
  intros all_samples.
  destruct (main_report example_draw (fun _ => 3) 16000 false all_samples)
    as [stats|e] eqn:E; [|vm_compute in E; discriminate].
  exists stats. split; [reflexivity|].
  exact (@main_report_counts_add_up example_draw (fun _ => 3) 16000%Z false
           all_samples stats E).
Defined.

(** ** process_audio *)

Lemma seconds_nonzero (audio : list npfloat) (rate : Z) :
  rate <> 0%Z -> seconds audio rate = Ok (Qlen audio / inject_Z rate)%Q.
Proof.
  intros H. unfold seconds. apply pydiv_nonzero.
  unfold Qeq, inject_Z. simpl. lia.
Qed.

(** X13.  For a target rate that is not zero, a failed [process_audio] has
    written nothing, whichever stage raised; a processed file has written
    exactly one file, at the output path, the reported duration is that
    file's length at the target rate, and the trimmed seconds are the
    original duration less it. *)
Theorem process_audio_writes_once_or_nothing
    (rnd : R -> R)
    (librosa_load : string -> result (list npfloat * Z))
    (librosa_resample : list npfloat -> Z -> Z -> result (list npfloat))
    (librosa_trim : list npfloat -> Z -> result (list npfloat))
    (self : AudioPreprocessor) (input_path output_path : string) (w : World) :
  ap_target_sr self <> 0%Z ->
  match process_audio rnd librosa_load librosa_resample librosa_trim
          self input_path output_path w with
  | (Failed _, w') => w' = w
  | (Processed duration original_sr original_duration trimmed_seconds, w') =>
      exists loaded written,
        librosa_load input_path = Ok (loaded, original_sr)
        /\ original_sr <> 0%Z
        /\ w' = mkWorld (py_random w) (np_random w)
                        (files w ++ [(output_path, written)])
        /\ original_duration = (Qlen loaded / inject_Z original_sr)%Q
        /\ duration = (Qlen written / inject_Z (ap_target_sr self))%Q
        /\ trimmed_seconds = (original_duration - duration)%Q
  end.
Proof.
  intros Htarget. unfold process_audio, process_audio_body.
  unfold bindM at 1. unfold lift at 1.
  destruct (librosa_load input_path) as [[audio sr]|e]; [|reflexivity].
  cbn [fst snd].
  unfold bindM at 1. unfold lift at 1. unfold seconds at 1, pydiv.
  destruct (Qeq_bool (inject_Z sr) 0) eqn:Esr; [reflexivity|].
  assert (Hsr : sr <> 0%Z).
  { intros ->. discriminate. }
  unfold bindM at 1.
  destruct (Z.eqb_spec sr (ap_target_sr self)) as [Heq|Hne]; cbn [negb].
  - unfold ret at 1. cbn [fst snd].
    unfold bindM at 1. unfold lift at 1.
    destruct (normalize_audio rnd audio (default_target_level rnd)) as [a1|e];
      [|reflexivity].
    unfold bindM at 1. unfold lift at 1.
    destruct (trim_silence librosa_trim self a1) as [a2|e]; [|reflexivity].
    unfold bindM at 1. cbn [sf_write].
    unfold bindM at 1. unfold lift at 1.
    rewrite (seconds_nonzero a2 Hsr). unfold ret.
    exists audio, a2. rewrite <- Heq. repeat split; auto.
  - unfold bindM at 1. unfold lift at 1.
    destruct (librosa_resample audio sr (ap_target_sr self)) as [a0|e];
      [|reflexivity].
    unfold ret at 1. cbn [fst snd].
    unfold bindM at 1. unfold lift at 1.
    destruct (normalize_audio rnd a0 (default_target_level rnd)) as [a1|e];
      [|reflexivity].
    unfold bindM at 1. unfold lift at 1.
    destruct (trim_silence librosa_trim self a1) as [a2|e]; [|reflexivity].
    unfold bindM at 1. cbn [sf_write].
    unfold bindM at 1. unfold lift at 1.
    rewrite (seconds_nonzero a2 Htarget). unfold ret.
    exists audio, a2. repeat split; auto.
Qed.

Lemma process_audio_writes_once_or_nothing_witness :
  match process_audio exact (fun _ => Ok ([Num 1; Num 0], 16000%Z))
          (fun audio _ _ => Ok audio) (fun audio _ => Ok audio)
          (mkPreprocessor 16000 30) "in.wav" "out.wav" (fresh_world 1 2) with
  | (Failed _, w') => w' = fresh_world 1 2
  | (Processed duration original_sr original_duration trimmed_seconds, w') =>
      exists loaded written,
        Ok ([Num 1; Num 0], 16000%Z) = Ok (loaded, original_sr)
        /\ original_sr <> 0%Z
        /\ w' = mkWorld (py_random (fresh_world 1 2))
                        (np_random (fresh_world 1 2))
                        (files (fresh_world 1 2) ++ [("out.wav"%string, written)])
        /\ original_duration = (Qlen loaded / inject_Z original_sr)%Q
        /\ duration = (Qlen written / inject_Z 16000)%Q
        /\ trimmed_seconds = (original_duration - duration)%Q
  end.
Proof.
  apply (@process_audio_writes_once_or_nothing exact
           (fun _ => Ok ([Num 1; Num 0], 16000%Z))
           (fun audio _ _ => Ok audio) (fun audio _ => Ok audio)
           (mkPreprocessor 16000 30) "in.wav" "out.wav" (fresh_world 1 2)).
  discriminate.
Defined.

(** X14.  A recording without samples is reported as a failure and leaves no
    output: at the target rate the peak normalisation raises [ValueError],
    and at another rate either the resampling raises or, if it returns no
    samples, the normalisation does. *)
Theorem process_audio_empty_recording
    (rnd : R -> R)
    (librosa_load : string -> result (list npfloat * Z))
    (librosa_resample : list npfloat -> Z -> Z -> result (list npfloat))
    (librosa_trim : list npfloat -> Z -> result (list npfloat))
    (self : AudioPreprocessor) (input_path output_path : string) (w : World)
    (sr : Z) :
  librosa_load input_path = Ok ([], sr) ->
  (forall resampled,
      librosa_resample [] sr (ap_target_sr self) = Ok resampled ->
      resampled = []) ->
  (exists e,
      process_audio rnd librosa_load librosa_resample librosa_trim
        self input_path output_path w = (Failed e, w))
  /\ (sr = ap_target_sr self -> sr <> 0%Z ->
      process_audio rnd librosa_load librosa_resample librosa_trim
        self input_path output_path w = (Failed ValueError, w)).
Proof.
  intros Hload Hres. split.
  - unfold process_audio, process_audio_body.
    unfold bindM at 1. unfold lift at 1. rewrite Hload. cbn [fst snd].
    unfold bindM at 1. unfold lift at 1. unfold seconds at 1, pydiv.
    destruct (Qeq_bool (inject_Z sr) 0) eqn:Esr; [eauto|].
    unfold bindM at 1.
    destruct (Z.eqb_spec sr (ap_target_sr self)) as [Heq|Hne]; cbn [negb].
    + unfold ret at 1. cbn [fst snd]. eexists. reflexivity.
    + unfold bindM at 1. unfold lift at 1.
      destruct (librosa_resample [] sr (ap_target_sr self)) as [a0|e] eqn:E;
        [|eauto].
      rewrite (Hres a0 eq_refl). unfold ret at 1. cbn [fst snd].
      eexists. reflexivity.
  - intros Heq Hsr. unfold process_audio, process_audio_body.
    unfold bindM at 1. unfold lift at 1. rewrite Hload. cbn [fst snd].
    unfold bindM at 1. unfold lift at 1.
    rewrite (seconds_nonzero [] Hsr).
    unfold bindM at 1. rewrite <- Heq, Z.eqb_refl. reflexivity.
Qed.

Lemma process_audio_empty_recording_witness :
  process_audio exact (fun _ => Ok ([], 16000%Z))
    (fun audio _ _ => Ok audio) (fun audio _ => Ok audio)
    (mkPreprocessor 16000 30) "in.wav" "out.wav" (fresh_world 1 2)
  = (Failed ValueError, fresh_world 1 2).
Proof.
  apply (@process_audio_empty_recording exact (fun _ => Ok ([], 16000%Z))
           (fun audio _ _ => Ok audio) (fun audio _ => Ok audio)
           (mkPreprocessor 16000 30) "in.wav" "out.wav" (fresh_world 1 2)
           16000%Z).
  - reflexivity.
  - intros resampled H. now injection H as <-.
  - reflexivity.
  - discriminate.
Defined.

(** ** The speaker id of an OpenSLR utterance *)

Lemma py_split_head (sep : ascii) (s : string) :
  exists h t,
    py_split sep s = h :: t
    /\ ~ In sep (list_ascii_of_string h)
    /\ ((s = h /\ t = []) \/ exists r, s = (h ++ String sep r)%string).
Proof.
  induction s as [|c s (h & t & E & Hno & Hs)]; simpl.
  - exists EmptyString, []. repeat split; auto.
  - destruct (Ascii.eqb_spec c sep) as [->|Hne].
    + exists EmptyString, (py_split sep s). repeat split; auto.
      right. exists s. reflexivity.
    + rewrite E. exists (String c h), t. repeat split.
      * simpl. intros [Hc|Hin]; [congruence | contradiction].
      * destruct Hs as [[-> ->]|[r ->]]; [now left|].
        right. exists r. reflexivity.
Qed.

(** X15.  The speaker id taken from an audio id is the audio id up to its
    first underscore: taking it never raises, the id holds no underscore,
    and the audio id is the speaker id alone, when it has no underscore, or
    the speaker id, an underscore and a rest. *)
Theorem openslr_speaker_is_prefix (audio_id : string) :
  exists speaker_id,
    openslr_speaker audio_id = Ok speaker_id
    /\ ~ In "_"%char (list_ascii_of_string speaker_id)
    /\ ((audio_id = speaker_id
         /\ ~ In "_"%char (list_ascii_of_string audio_id))
        \/ exists rest, audio_id = (speaker_id ++ String "_" rest)%string).
Proof.
  unfold openslr_speaker.
  destruct (py_split_head "_" audio_id) as (h & t & E & Hno & Hs).
  rewrite E. exists h. repeat split; auto.
  destruct Hs as [[-> ->]|[r ->]]; [left; now split | right; now exists r].
Qed.

Example openslr_speaker_examples :
  openslr_speaker "spk01_utt007" = Ok "spk01"%string
  /\ openslr_speaker "utt007" = Ok "utt007"%string
  /\ openslr_speaker "_utt007" = Ok EmptyString.
Proof.
  repeat split.
Qed.

(** ** augment_audio: what a failure leaves behind *)

(** X16.  If the load raises, [augment_audio] raises the same exception and
    has written nothing; if speed is requested and the first time stretch
    raises, it raises that exception after the unmodified copy has been
    written, and the copy stays. *)
Theorem augment_audio_failure_leaves_original
    (rnd pow10 : R -> R) (normal_draw : Z -> nat -> R)
    (time_stretch : list npfloat -> R -> result (list npfloat))
    (load : string -> Z -> result (list npfloat)) (stem : string -> string)
    (path_div : string -> string -> string)
    (self : AudioAugmenter) (audio_path output_dir : string)
    (techniques : list string) (w : World) (e : exn) :
  (load audio_path (sr self) = Raise e ->
     augment_audio rnd pow10 normal_draw time_stretch load stem path_div self
       audio_path output_dir techniques w = (Raise e, w))
  /\ (forall audio,
        load audio_path (sr self) = Ok audio ->
        requested "speed" techniques = true ->
        time_stretch audio (rnd (9 / 10)%R) = Raise e ->
        augment_audio rnd pow10 normal_draw time_stretch load stem path_div self
          audio_path output_dir techniques w
        = (Raise e,
           mkWorld (py_random w) (np_random w)
             (files w ++ [(path_div output_dir
                             (stem audio_path ++ "_original.wav")%string,
                           audio)]))).
Proof.
  split.
  - intros Hload. unfold augment_audio, bindM, lift. now rewrite Hload.
  - intros audio Hload Hs Hts. unfold augment_audio.
    erewrite bindM_run by (unfold lift; rewrite Hload; reflexivity).
    erewrite bindM_run by reflexivity.
    rewrite Hs. unfold speed_variants, speed_factors.
    cbn [foldM lit_val]. unfold speed_perturbation.
    unfold bindM, lift. rewrite Hts. reflexivity.
Qed.

Lemma augment_audio_failure_leaves_original_witness :
  augment_audio exact exact_pow10 (fun _ _ => 0%R) (fun _ _ => Raise ValueError)
    (fun _ _ => Ok [Num 1]) (fun name => name) join_with_slash
    (mkAugmenter 16000 (mkRng 42 0)) "clip" "out" ["speed"%string]
    (fresh_world 1 2)
  = (Raise ValueError,
     mkWorld (mkRng 1 0) (mkRng 2 0) [("out/clip_original.wav"%string, [Num 1])]).
Proof.
  apply (proj2 (@augment_audio_failure_leaves_original exact exact_pow10
                  (fun _ _ => 0%R) (fun _ _ => Raise ValueError)
                  (fun _ _ => Ok [Num 1]) (fun name => name) join_with_slash
                  (mkAugmenter 16000 (mkRng 42 0)) "clip" "out"
                  ["speed"%string] (fresh_world 1 2) ValueError) [Num 1]);
    reflexivity.
Defined.

(** ** augment_dataset *)

Lemma foldM_appends {A B : Type} (body : list B -> A -> M (list B))
    (Q : A -> B -> Prop) :
  (forall acc x w r w',
      body acc x w = (Ok r, w') ->
      exists new, r = acc ++ new /\ Forall (Q x) new) ->
  forall l acc w r w',
    foldM body l acc w = (Ok r, w') ->
    exists new,
      r = acc ++ new /\ Forall (fun b => exists x, In x l /\ Q x b) new.
Proof.
  intros Hbody. induction l as [|x l IH]; intros acc w r w' H.
  - injection H as <- _. exists []. split; [now rewrite app_nil_r|constructor].
  - cbn [foldM] in H. unfold bindM in H.
    destruct (body acc x w) as [[r1|e] w1] eqn:E; [|discriminate].
    destruct (Hbody _ _ _ _ _ E) as (new1 & -> & F1).
    destruct (IH _ _ _ _ H) as (new2 & -> & F2).
    exists (new1 ++ new2). split; [now rewrite app_assoc|].
    apply Forall_app. split.
    + eapply Forall_impl; [|exact F1]. intros b Hb. exists x. split; [now left|exact Hb].
    + eapply Forall_impl; [|exact F2].
      intros b (y & Hy & Hb). exists y. split; [now right|exact Hb].
Qed.

Lemma foldM_counts {A B : Type} (body : list B -> A -> M (list B))
    (c : nat) (l : list A) :
  (forall acc x w,
      In x l ->
      exists new w', body acc x w = (Ok (acc ++ new), w')
                     /\ List.length new = c) ->
  forall acc w,
    exists r w',
      foldM body l acc w = (Ok r, w')
      /\ List.length r = (List.length acc + List.length l * c)%nat.
Proof.
  induction l as [|x l IH]; intros Hbody acc w.
  - exists acc, w. split; [reflexivity|]. simpl. lia.
  - destruct (Hbody acc x w (or_introl eq_refl)) as (new & w1 & E & L).
    destruct (IH (fun acc y w Hy => Hbody acc y w (or_intror Hy))
                 (acc ++ new) w1) as (r & w' & E' & L').
    exists r, w'. cbn [foldM]. unfold bindM. rewrite E. split; [exact E'|].
    rewrite L', length_app, L. simpl. lia.
Qed.

Lemma string_length_append (s1 s2 : string) :
  String.length (s1 ++ s2) = (String.length s1 + String.length s2)%nat.
Proof.
  induction s1 as [|c s1 IH]; simpl; [reflexivity|]. now rewrite IH.
Qed.

Lemma selection_of_In {A : Type} (sub l : list A) (x : A) :
  selection_of sub l -> In x sub -> In x l.
Proof.
  intros [rest P] Hx. apply (Permutation_in _ P), in_or_app. now left.
Qed.

Lemma random_sample_Ok_In {A : Type} (py_draw : Z -> nat -> nat)
    (population sel : list A) (k : Z) (w w' : World) :
  random_sample py_draw population k w = (Ok sel, w') ->
  selection_of sel population /\ List.length sel = Z.to_nat k.
Proof.
  intros H.
  destruct (Z_lt_dec k 0) as [Hneg|Hpos].
  { rewrite random_sample_out_of_range in H by now left. discriminate. }
  destruct (Z_lt_dec (Z.of_nat (List.length population)) k) as [Hbig|Hok].
  { rewrite random_sample_out_of_range in H by now right. discriminate. }
  destruct (@random_sample_spec py_draw A population k w)
    as (sel' & w'' & E & L & S & _); [lia|].
  rewrite E in H. injection H as <- _. now split.
Qed.

(** X17.  Whenever [augment_dataset] returns, the rows it hands to the
    writer are the input rows, unchanged and in their order, followed by
    augmented rows; every augmented row comes from an input row, keeps its
    transcript and locale, and carries that row's speaker id followed by an
    underscore and a tag, which is never the speaker id of the row it comes
    from. *)
Theorem augment_dataset_keeps_sources
    (rnd pow10 : R -> R)
    (normal_draw : Z -> nat -> R) (py_draw : Z -> nat -> nat)
    (time_stretch : list npfloat -> R -> result (list npfloat))
    (load : string -> Z -> result (list npfloat)) (stem : string -> string)
    (path_div : string -> string -> string)
    (samples : list Row) (output_audio_dir : string) (techniques : list string)
    (augment_ratio : Q) (w w' : World) (all_samples : list Row) :
  augment_dataset rnd pow10 normal_draw py_draw time_stretch load stem
    path_div samples output_audio_dir techniques augment_ratio w = (Ok all_samples, w') ->
  exists augmented_samples,
    all_samples = samples ++ augmented_samples
    /\ Forall (fun r =>
                 exists source tag,
                   In source samples
                   /\ row_transcript r = row_transcript source
                   /\ row_locale r = row_locale source
                   /\ row_speaker r = (row_speaker source ++ "_" ++ tag)%string
                   /\ row_speaker r <> row_speaker source)
              augmented_samples.
Proof.
  unfold augment_dataset, AudioAugmenter_init, np_random_seed.
  unfold bindM at 1 2. cbn [ret]. set (w0 := mkWorld _ _ _).
  intros H. unfold bindM at 1 in H.
  destruct (random_sample py_draw samples _ w0) as [[sel|e] w1] eqn:Esel;
    [|discriminate].
  apply random_sample_Ok_In in Esel as [Hsel _].
  unfold bindM at 1 in H. unfold augment_selected in H.
  match type of H with
  | context [foldM ?body sel [] w1] =>
      destruct (foldM body sel [] w1) as [[aug|e] w2] eqn:Efold;
        [|discriminate];
      apply (@foldM_appends Row Row body derived_from) in Efold
  end.
  - destruct Efold as (new & -> & F). injection H as <- _.
    exists new. split; [reflexivity|].
    eapply Forall_impl; [|exact F].
    intros r (source & Hin & aug_path & tag & ->).
    exists source, tag. split; [exact (@selection_of_In _ _ _ _ Hsel Hin)|].
    repeat split.
    intros E. cbn in E.
    apply (f_equal String.length) in E.
    rewrite string_length_append in E. cbn in E. lia.
  - intros acc x w2' r w3 Hb. unfold bindM in Hb.
    destruct (augment_audio _ _ _ _ _ _ _ _ _ _ _ w2') as [[aug_files|e'] w4];
      [|discriminate].
    injection Hb as <- _. eexists. split; [reflexivity|].
    apply Forall_forall. intros r Hr.
    apply in_map_iff in Hr as ([aug_path tag] & <- & _).
    exists aug_path, tag. reflexivity.
Qed.

Lemma augment_dataset_keeps_sources_witness :
  let samples := [mkRow "a1.wav" "text" "A" "bn"; mkRow "b1.wav" "text" "B" "bn"] in
  exists all_samples augmented_samples,
    fst (augment_dataset exact exact_pow10 (fun _ _ => 0%R) example_draw
           (fun audio _ => Ok audio)
           (fun _ _ => Ok [Num 1]) (fun name => name) join_with_slash
           samples "out" ["speed"%string] 1 (fresh_world 1 2))
    = Ok all_samples
    /\ all_samples = samples ++ augmented_samples
    /\ Forall (fun r =>
                 exists source tag,
                   In source samples
                   /\ row_transcript r = row_transcript source
                   /\ row_locale r = row_locale source
                   /\ row_speaker r = (row_speaker source ++ "_" ++ tag)%string
                   /\ row_speaker r <> row_speaker source)
              augmented_samples.
Proof.
  intros samples.
  destruct (augment_dataset exact exact_pow10 (fun _ _ => 0%R) example_draw
              (fun audio _ => Ok audio)
              (fun _ _ => Ok [Num 1]) (fun name => name) join_with_slash
              samples "out" ["speed"%string] 1 (fresh_world 1 2))
    as [[all_samples|e] w'] eqn:E.
  - destruct (@augment_dataset_keeps_sources _ _ _ _ _ _ _ _ _ _ _ _ _ _ _ E)
      as (augmented_samples & H1 & H2).
    exists all_samples, augmented_samples. repeat split; assumption.
  - exfalso. vm_compute in E. discriminate.
Defined.

(** ** augment_audio and the process-wide generators *)

Lemma ignores_ret {A : Type} (a : A) : ignores_python_rng (ret a).
Proof.
  intros w w' H. cbn. repeat split; auto.
  exists []. now rewrite !app_nil_r.
Qed.

Lemma ignores_lift {A : Type} (r : result A) : ignores_python_rng (lift r).
Proof.
  intros w w' H. cbn. repeat split; auto.
  exists []. now rewrite !app_nil_r.
Qed.

Lemma ignores_sf_write (out_path : string) (audio : list npfloat) :
  ignores_python_rng (sf_write out_path audio).
Proof.
  intros w w' H. cbn. repeat split; auto.
  exists [(out_path, audio)]. now split.
Qed.

Lemma ignores_bindM {A B : Type} (m : M A) (k : A -> M B) :
  ignores_python_rng m -> (forall a, ignores_python_rng (k a)) ->
  ignores_python_rng (bindM m k).
Proof.
  intros Hm Hk w w' H. unfold bindM.
  destruct (Hm w w' H) as (Er & Enp & Epy & new1 & F1 & F1').
  destruct (m w) as [r w1], (m w') as [r' w1']. cbn [fst snd] in *.
  subst r'. destruct r as [a|e].
  - destruct (Hk a w1 w1' Enp) as (Er2 & Enp2 & Epy2 & new2 & F2 & F2').
    repeat split; auto; try congruence.
    exists (new1 ++ new2). rewrite F2, F2', F1, F1', !app_assoc. now split.
  - cbn. repeat split; auto. exists new1. now split.
Qed.

Lemma ignores_foldM {A B : Type} (body : B -> A -> M B) (l : list A) :
  (forall acc x, ignores_python_rng (body acc x)) ->
  forall acc, ignores_python_rng (foldM body l acc).
Proof.
  intros Hbody. induction l as [|x l IH]; intros acc; cbn [foldM].
  - apply ignores_ret.
  - apply ignores_bindM; [apply Hbody | exact IH].
Qed.

Lemma ignores_np_random_normal (rnd : R -> R) (normal_draw : Z -> nat -> R)
    (loc scale : R) (size : nat) :
  ignores_python_rng (np_random_normal rnd normal_draw loc scale size).
Proof.
  intros w w' H. unfold np_random_normal.
  destruct (Rlt_dec scale 0); cbn [fst snd py_random np_random files];
    rewrite ?H; repeat split; auto; exists []; now rewrite !app_nil_r.
Qed.

Lemma ignores_add_white_noise (rnd : R -> R) (normal_draw : Z -> nat -> R)
    (audio : list npfloat) (noise_level : R) :
  ignores_python_rng (add_white_noise rnd normal_draw audio noise_level).
Proof.
  unfold add_white_noise. apply ignores_bindM.
  - apply ignores_np_random_normal.
  - intros noise. apply ignores_lift.
Qed.

Lemma ignores_augment_audio (rnd pow10 : R -> R) (normal_draw : Z -> nat -> R)
    (time_stretch : list npfloat -> R -> result (list npfloat))
    (load : string -> Z -> result (list npfloat)) (stem : string -> string)
    (path_div : string -> string -> string)
    (self : AudioAugmenter) (audio_path output_dir : string)
    (techniques : list string) :
  ignores_python_rng
    (augment_audio rnd pow10 normal_draw time_stretch load stem path_div self
       audio_path output_dir techniques).
Proof.
  unfold augment_audio, speed_variants, noise_variants, volume_variants.
  repeat first
    [ apply ignores_ret
    | apply ignores_lift
    | apply ignores_sf_write
    | apply ignores_add_white_noise
    | apply ignores_foldM; intros
    | apply ignores_bindM; [|intros]
    | match goal with
      | |- ignores_python_rng (if ?c then _ else _) => destruct c
      end ].
Qed.

(** X19.  A freshly constructed augmenter makes [augment_audio]
    reproducible: whatever the state of the two process-wide generators
    before, the augmenter built with a given seed returns the same list and
    writes the same files with the same samples, and Python's generator is
    left as it was. *)
Theorem augment_audio_reproducible_after_init
    (rnd pow10 : R -> R) (normal_draw : Z -> nat -> R)
    (time_stretch : list npfloat -> R -> result (list npfloat))
    (load : string -> Z -> result (list npfloat)) (stem : string -> string)
    (path_div : string -> string -> string)
    (sample_rate seed : Z) (audio_path output_dir : string)
    (techniques : list string) (w w' : World) :
  let run :=
    augmenter <~ AudioAugmenter_init sample_rate seed ;;
    augment_audio rnd pow10 normal_draw time_stretch load stem path_div
      augmenter audio_path output_dir techniques in
  fst (run w) = fst (run w')
  /\ py_random (snd (run w)) = py_random w
  /\ exists new,
       files (snd (run w)) = files w ++ new
       /\ files (snd (run w')) = files w' ++ new.
Proof.
  intros run. unfold run, AudioAugmenter_init, np_random_seed.
  unfold bindM at 1 2 3 4 5 6 7 8. cbn [ret].
  set (self := mkAugmenter sample_rate (mkRng seed 0)).
  destruct (@ignores_augment_audio rnd pow10 normal_draw time_stretch load
              stem path_div self audio_path output_dir techniques
              (mkWorld (py_random w) (mkRng seed 0) (files w))
              (mkWorld (py_random w') (mkRng seed 0) (files w')) eq_refl)
    as (Er & _ & Epy & new & F & F').
  repeat split; auto.
  exists new. now split.
Qed.

(** ** The splits of [main] in double arithmetic *)

Lemma same_sizes_train_test_split {A : Type} (mt_draw : Z -> nat -> nat)
    (arr : list A) (ts : float) (q : Q) (seed : Z) :
  same_sizes ts q (List.length arr) = true ->
  Double.train_test_split mt_draw arr ts seed
  = train_test_split mt_draw arr q seed.
Proof.
  unfold same_sizes, Double.train_test_split, train_test_split.
  destruct (Double.validate_shuffle_split (List.length arr) ts) as [[a b]|e];
    cbn [bind].
  - destruct (Double.validate_sizes (List.length arr) a b) as [[a1 b1]|e];
      destruct (validate_shuffle_split (List.length arr) q) as [[a' b']|e'];
      cbn [bind]; try discriminate.
    + intros H. apply andb_prop in H as [Ha Hb].
      apply Z.eqb_eq in Ha, Hb. now subst.
    + destruct e; discriminate.
    + destruct e, e'; try discriminate. reflexivity.
  - destruct (validate_shuffle_split (List.length arr) q) as [[a' b']|e'];
      cbn [bind].
    + destruct e; discriminate.
    + destruct e, e'; try discriminate. reflexivity.
Qed.

Lemma main_sizes_checked : forallb main_sizes_agree (seq 0 1001) = true.
Proof.
  vm_compute. reflexivity.
Qed.

Lemma main_sizes_agree_le (n : nat) :
  (n <= 1000)%nat ->
  same_sizes 0.2 (2 # 10) n = true
  /\ same_sizes 0.5 (5 # 10) n = true
  /\ same_sizes (0.1 + 0.1) ((1 # 10) + (1 # 10)) n = true
  /\ same_sizes (0.1 / (0.1 + 0.1)) ((1 # 10) / ((1 # 10) + (1 # 10))) n = true.
Proof.
  intros H.
  assert (Hn : main_sizes_agree n = true).
  { apply (proj1 (forallb_forall _ _) main_sizes_checked).
    apply in_seq. lia. }
  unfold main_sizes_agree in Hn.
  apply andb_prop in Hn as [Hn H4]. apply andb_prop in Hn as [Hn H3].
  apply andb_prop in Hn as [H1 H2]. auto.
Qed.

Lemma length_dict_append (d : list (string * list Sample)) (k : string)
    (s : Sample) :
  (List.length (dict_append d k s) <= S (List.length d))%nat.
Proof.
  induction d as [|[k' l] d IH]; simpl; [lia|].
  destruct (String.eqb k' k); simpl; lia.
Qed.

Lemma length_distinct_speakers (data : list Sample) :
  (List.length (distinct_speakers data) <= List.length data)%nat.
Proof.
  unfold distinct_speakers, dict_keys, group_by_speaker. rewrite length_map.
  assert (H : forall d,
             (List.length
                (fold_left (fun d sample =>
                              dict_append d (get_speaker sample) sample) data d)
              <= List.length d + List.length data)%nat).
  { induction data as [|s data IH]; intros d; simpl; [lia|].
    specialize (IH (dict_append d (get_speaker s) s)).
    pose proof (length_dict_append d (get_speaker s) s). lia. }
  apply (H []).
Qed.

Lemma train_test_split_test_length {A : Type} (mt_draw : Z -> nat -> nat)
    (arr train test : list A) (ts : Q) (seed : Z) :
  train_test_split mt_draw arr ts seed = Ok (train, test) ->
  (List.length test <= List.length arr)%nat.
Proof.
  intros H.
  destruct (validate_shuffle_split (List.length arr) ts) as [[a b]|e] eqn:Ev.
  - destruct (@train_test_split_Ok mt_draw A arr ts seed a b Ev)
      as (train' & test' & E & P & _).
    rewrite E in H. injection H as -> ->.
    rewrite <- (Permutation_length P), length_app. lia.
  - rewrite (@train_test_split_Raise mt_draw A arr ts seed e Ev) in H. discriminate.
Qed.

(** X20.  On at most 1000 records the two splits of [main] do not depend
    on the rounding of their fractions: computed in double arithmetic, the
    record-level split at 0.2 and 0.5 and the speaker-level split at
    0.8/0.1/0.1 return the lists, or raise the exception, that the
    computation with the exact fractions 1/5 and 1/2 gives. *)
Theorem main_split_sizes_exact (mt_draw : Z -> nat -> nat)
    (use_speaker_split : bool) (all_samples : list Sample) :
  (List.length all_samples <= 1000)%nat ->
  Double.main_split mt_draw use_speaker_split all_samples
  = main_split mt_draw use_speaker_split all_samples.
Proof.
  intros Hlen. unfold Double.main_split, main_split.
  destruct use_speaker_split.
  - unfold Double.run_speaker_split, run_speaker_split.
    replace (Double.DatasetSplitter_init 0.8 0.1 0.1 42)
      with (Ok (Double.mkSplitter 0.8 0.1 0.1 42)) by (vm_compute; reflexivity).
    replace (DatasetSplitter_init (8 # 10) (1 # 10) (1 # 10) 42)
      with (Ok (mkSplitter (8 # 10) (1 # 10) (1 # 10) 42))
      by (vm_compute; reflexivity).
    cbn [bind]. unfold Double.split_by_speaker, split_by_speaker.
    cbn [Double.valid_ratio Double.test_ratio Double.random_seed
         valid_ratio test_ratio random_seed].
    fold (distinct_speakers all_samples).
    pose proof (length_distinct_speakers all_samples) as Hks.
    set (ks := distinct_speakers all_samples) in *.
    destruct (@main_sizes_agree_le (List.length ks)) as (_ & _ & H3 & _);
      [lia|].
    rewrite (@same_sizes_train_test_split _ mt_draw ks _ _ 42 H3).
    destruct (train_test_split mt_draw ks ((1 # 10) + (1 # 10)) 42)
      as [[trs temps]|e] eqn:E1; cbn [bind]; [|reflexivity].
    pose proof (@train_test_split_test_length _ _ _ _ _ _ _ E1) as Htemps.
    replace (Double.pydiv 0.1 (0.1 + 0.1)) with (Ok (0.1 / (0.1 + 0.1))%float)
      by (vm_compute; reflexivity).
    replace (pydiv (1 # 10) ((1 # 10) + (1 # 10)))
      with (Ok ((1 # 10) / ((1 # 10) + (1 # 10)))%Q)
      by (vm_compute; reflexivity).
    cbn [bind].
    destruct (@main_sizes_agree_le (List.length temps)) as (_ & _ & _ & H4);
      [lia|].
    now rewrite (@same_sizes_train_test_split _ mt_draw temps _ _ 42 H4).
  - unfold Double.random_split, random_split.
    destruct (@main_sizes_agree_le (List.length all_samples) Hlen)
      as (H1 & _).
    rewrite (@same_sizes_train_test_split _ mt_draw all_samples _ _ 42 H1).
    destruct (train_test_split mt_draw all_samples (2 # 10) 42)
      as [[train temp]|e] eqn:E1; cbn [bind]; [|reflexivity].
    pose proof (@train_test_split_test_length _ _ _ _ _ _ _ E1) as Htemp.
    destruct (@main_sizes_agree_le (List.length temp)) as (_ & H2 & _); [lia|].
    now rewrite (@same_sizes_train_test_split _ mt_draw temp _ _ 42 H2).
Qed.

Lemma main_split_sizes_exact_witness :
  Double.main_split example_draw true scenario_records
  = main_split example_draw true scenario_records
  /\ Double.main_split example_draw false scenario_records
     = main_split example_draw false scenario_records.
Proof.
  split; apply main_split_sizes_exact; simpl; lia.
Defined.
